(** * Authorization and session layer of the PostgreSQL MCP server

    Shallow embedding of the OAuth-like authorization server, the
    brute-force rate limiter, the timing-safe password comparison and the
    MCP session registry of [src/index.ts] (the server entry point; the
    file is [src/unnamed/part_005] in this tree).

    Modelling conventions:
    - [Date.now()] is an explicit argument [now : Z] (milliseconds);
    - the module-level maps [rateLimitState], [oauthClients], [authCodes]
      and [transports] are the fields of one server state record, each a
      [gmap string _]; a handler takes the state and returns the new one;
    - [rateLimitState] is a [Map]; the other three are plain objects, so
      [obj[k]] also finds the members inherited from [Object.prototype]
      ([obj_get]);
    - a JS value that may be [undefined] is an [option]; truthiness of a
      string is [js_truthy] (the empty string is falsy);
    - a JS string is modelled by the bytes [Buffer.from] produces for it;
    - [randomUUID()] draws from a counter kept in the state, so every
      drawn identifier is distinct from every earlier one. *)

From Stdlib Require Import ZArith Lia Bool List.
From Stdlib Require Import Strings.String Strings.Byte.
From stdpp Require Import base gmap strings pretty.

Import ListNotations.
Open Scope Z_scope.

(* ------------------------------------------------------------------ *)
(** ** JavaScript helpers *)

(** [!!s] for a possibly undefined string. *)
Definition js_truthy (o : option string) : bool :=
  match o with
  | Some s => negb (String.eqb s "")
  | None => false
  end.

(** Template-literal interpolation: [`${x}`] prints [undefined] for a
    missing value. *)
Definition js_str (o : option string) : string :=
  match o with
  | Some s => s
  | None => "undefined"
  end.

(** The properties of [Object.prototype] (Node.js): every plain object
    inherits them, and each is a function or an object, so truthy. *)
Definition object_prototype_members : list string :=
  ["constructor"; "__defineGetter__"; "__defineSetter__"; "hasOwnProperty";
   "__lookupGetter__"; "__lookupSetter__"; "isPrototypeOf"; "propertyIsEnumerable";
   "toString"; "valueOf"; "__proto__"; "toLocaleString"].

Definition is_proto_member (k : string) : bool :=
  existsb (String.eqb k) object_prototype_members.

(** Result of [obj[k]] on a plain object whose own properties are a
    [gmap]: an own property, an inherited [Object.prototype] member, or
    [undefined].  (The stores only ever write keys drawn from
    [randomUUID], so no own property shadows an inherited one.) *)
Inductive js_lookup (A : Type) :=
  | Own (v : A)
  | Inherited (name : string)
  | Undef.
Arguments Own {A} v.
Arguments Inherited {A} name.
Arguments Undef {A}.

Definition obj_get {A : Type} (m : gmap string A) (k : string) : js_lookup A :=
  match m !! k with
  | Some v => Own v
  | None => if is_proto_member k then Inherited k else Undef
  end.

(** Truthiness of [obj[k]]: the stored values are objects. *)
Definition lookup_truthy {A : Type} (l : js_lookup A) : bool :=
  match l with Undef => false | _ => true end.

#[global] Instance byte_eq_decision : EqDecision byte := byte_eq_dec.

(** [Buffer.from(s)]. *)
Definition Buffer_from (s : string) : list byte := list_byte_of_string s.

(** [Buffer.alloc(n)]: [n] zero bytes. *)
Definition Buffer_alloc (n : nat) : list byte := repeat x00 n.

(** [src.copy(dst)]: copies [min(src.length, dst.length)] bytes of [src]
    to the front of [dst] and returns the updated [dst]. *)
Definition Buffer_copy (src dst : list byte) : list byte :=
  firstn (length dst) src ++ skipn (length src) dst.

(** [crypto.timingSafeEqual(a, b)]: throws ([None]) when the lengths
    differ; otherwise accumulates the byte differences over the whole
    buffers without stopping at the first mismatch. *)
Fixpoint diff_acc (a b : list byte) (acc : bool) : bool :=
  match a, b with
  | x :: a', y :: b' => diff_acc a' b' (acc || negb (Byte.eqb x y))
  | _, _ => acc
  end.

Definition timingSafeEqual (a b : list byte) : option bool :=
  if Nat.eqb (length a) (length b) then Some (negb (diff_acc a b false))
  else None.

(* ------------------------------------------------------------------ *)
(** ** [safeComparePasswords] *)

(** Result of the comparison ([None] if an exception escapes) together
    with the list of [timingSafeEqual] calls made, in order. *)
Definition safeComparePasswords (provided expected : option string)
  : option bool * list (list byte * list byte) :=
  if negb (js_truthy provided) || negb (js_truthy expected) then (Some false, [])
  else
    let providedBuf := Buffer_from (js_str provided) in
    let expectedBuf := Buffer_from (js_str expected) in
    if negb (Nat.eqb (length providedBuf) (length expectedBuf)) then
      let paddedProvided := Buffer_copy providedBuf (Buffer_alloc (length expectedBuf)) in
      match timingSafeEqual paddedProvided expectedBuf with
      | Some _ => (Some false, [(paddedProvided, expectedBuf)])
      | None => (None, [(paddedProvided, expectedBuf)])
      end
    else (timingSafeEqual providedBuf expectedBuf, [(providedBuf, expectedBuf)]).

(* ------------------------------------------------------------------ *)
(** ** [createAuthMiddleware] *)

Inductive mw_result :=
  | MwReject (status : Z) (error : string) (error_description : string)
  | MwNext (auth_token_prefix : string).

(** Node's HTTP parser strips the optional whitespace (spaces and
    horizontal tabs) around a header value before it reaches
    [req.headers]: [node_header_value raw] is what the handler sees for
    the raw value [raw]. *)
Definition is_ows (a : Ascii.ascii) : bool :=
  Ascii.eqb a (Ascii.ascii_of_nat 32) || Ascii.eqb a (Ascii.ascii_of_nat 9).

Fixpoint trim_left (l : list Ascii.ascii) : list Ascii.ascii :=
  match l with
  | a :: l' => if is_ows a then trim_left l' else l
  | [] => []
  end.

Definition node_header_value (raw : string) : string :=
  string_of_list_ascii (rev (trim_left (rev (trim_left (list_ascii_of_string raw))))).

(** [authHeader] is [req.headers.authorization]. *)
Definition createAuthMiddleware (authHeader : option string) : mw_result :=
  match authHeader with
  | Some h =>
      if negb (String.eqb h "") && String.prefix "Bearer " h then
        let token := String.substring 7 (String.length h - 7) h in
        if String.eqb token "" then
          MwReject 401 "invalid_token" "Invalid or expired token"
        else MwNext (String.substring 0 8 token ++ "...")
      else MwReject 401 "unauthorized" "Bearer token required"
  | None => MwReject 401 "unauthorized" "Bearer token required"
  end.

(* ------------------------------------------------------------------ *)
(** ** Server state *)

Module RateEntry.
Record t := mk { attempts : Z; lockoutUntil : Z }.
End RateEntry.

(** [interface OAuthClient]. *)
Module OAuthClient.
Record t := mk {
  client_id : string;
  client_secret : option string;
  redirect_uris : list string;
  client_name : option string;
  created_at : Z }.
End OAuthClient.

(** Values of the [authCodes] record. *)
Module AuthCode.
Record t := mk {
  client_id : option string;
  redirect_uri : option string;
  code_challenge : option string;
  code_challenge_method : option string;
  expires : Z }.
End AuthCode.

(** The module-level mutable state of the server.  [transports] maps a
    session id to the transport object registered under it; transport
    objects are named by the number of their allocation. *)
Record server := mkServer {
  rateLimitState : gmap string RateEntry.t;
  oauthClients : gmap string OAuthClient.t;
  authCodes : gmap string AuthCode.t;
  transports : gmap string nat;
  uuid_counter : N;
  transport_counter : nat }.

Definition set_rateLimitState (st : server) r : server :=
  mkServer r st.(oauthClients) st.(authCodes) st.(transports) st.(uuid_counter) st.(transport_counter).
Definition set_oauthClients (st : server) c : server :=
  mkServer st.(rateLimitState) c st.(authCodes) st.(transports) st.(uuid_counter) st.(transport_counter).
Definition set_authCodes (st : server) a : server :=
  mkServer st.(rateLimitState) st.(oauthClients) a st.(transports) st.(uuid_counter) st.(transport_counter).
Definition set_transports (st : server) tr : server :=
  mkServer st.(rateLimitState) st.(oauthClients) st.(authCodes) tr st.(uuid_counter) st.(transport_counter).

Definition empty_server : server := mkServer ∅ ∅ ∅ ∅ 0%N 0%nat.

(** [randomUUID()]: a fresh identifier on every call. *)
Definition randomUUID (st : server) : string * server :=
  (pretty st.(uuid_counter),
   mkServer st.(rateLimitState) st.(oauthClients) st.(authCodes) st.(transports)
            (N.succ st.(uuid_counter)) st.(transport_counter)).

(** Decimal digits: every identifier drawn by [randomUUID] consists of
    them. *)
Definition is_digit_char (a : Ascii.ascii) : bool :=
  Nat.leb 48 (Ascii.nat_of_ascii a) && Nat.leb (Ascii.nat_of_ascii a) 57.

Fixpoint all_digits (s : string) : bool :=
  match s with
  | EmptyString => true
  | String a s' => is_digit_char a && all_digits s'
  end.

(** [new StreamableHTTPServerTransport(...)]: a new transport object. *)
Definition new_transport (st : server) : nat * server :=
  (st.(transport_counter),
   mkServer st.(rateLimitState) st.(oauthClients) st.(authCodes) st.(transports)
            st.(uuid_counter) (S st.(transport_counter))).

(** Responses written by the handlers. *)
Inductive response :=
  | Redirect (url : string)
  | LoginPage (status : Z) (error : option string)
  | TokenJson (status : Z) (access_token token_type : string) (expires_in : Z)
  | ErrorJson (status : Z) (error error_description : string)
  | JsonRpcError (status : Z) (code : Z) (message : string)
  | TextBody (status : Z) (body : string)
  | InternalError500
  | Handled (transport : nat)
  (* an [async] handler whose promise rejects with a [TypeError] before
     writing any response *)
  | HandlerRejected.

(** Status code of a response; [Redirect] is Express's default 302 and a
    [Handled] response is written by the transport. *)
Definition status_of (r : response) : option Z :=
  match r with
  | Redirect _ => Some 302
  | LoginPage s _ | TokenJson s _ _ _ | ErrorJson s _ _ | JsonRpcError s _ _
  | TextBody s _ => Some s
  | InternalError500 => Some 500
  | Handled _ | HandlerRejected => None
  end.

(* ------------------------------------------------------------------ *)
(** ** Configuration and rate limiting *)

Section Server.

(** [RATE_LIMIT_MAX_ATTEMPTS], [RATE_LIMIT_WINDOW_MS],
    [OAUTH_TOKEN_EXPIRES_IN] and [process.env.MCP_AUTH_PASSWORD]. *)
Variable RATE_LIMIT_MAX_ATTEMPTS : Z.
Variable RATE_LIMIT_WINDOW_MS : Z.
Variable OAUTH_TOKEN_EXPIRES_IN : Z.
Variable authPassword : option string.

Definition rate_limit_message (remainingSeconds : Z) : string :=
  "Too many failed attempts. Try again in " ++ pretty remainingSeconds ++ " seconds.".

(** [checkRateLimit(ip)]: the message, if limited, and the new table.
    [Math.ceil(d / 1000)] on an integer [d] is [(d + 999) / 1000]. *)
Definition checkRateLimit (rl : gmap string RateEntry.t) (now : Z) (ip : string)
  : option string * gmap string RateEntry.t :=
  match rl !! ip with
  | None => (None, rl)
  | Some state =>
      if now <? RateEntry.lockoutUntil state then
        let remainingSeconds := (RateEntry.lockoutUntil state - now + 999) / 1000 in
        (Some (rate_limit_message remainingSeconds), rl)
      else if (RateEntry.lockoutUntil state <=? now)
              && (RATE_LIMIT_MAX_ATTEMPTS <=? RateEntry.attempts state) then
        (None, delete ip rl)
      else (None, rl)
  end.

(** [recordFailedAttempt(ip)]: whether now locked out, and the new table. *)
Definition recordFailedAttempt (rl : gmap string RateEntry.t) (now : Z) (ip : string)
  : bool * gmap string RateEntry.t :=
  let state := default (RateEntry.mk 0 0) (rl !! ip) in
  let state1 := RateEntry.mk (RateEntry.attempts state + 1) (RateEntry.lockoutUntil state) in
  let state2 :=
    if RATE_LIMIT_MAX_ATTEMPTS <=? RateEntry.attempts state1
    then RateEntry.mk (RateEntry.attempts state1) (now + RATE_LIMIT_WINDOW_MS)
    else state1 in
  (RATE_LIMIT_MAX_ATTEMPTS <=? RateEntry.attempts state2, <[ip := state2]> rl).

(** [clearRateLimit(ip)]. *)
Definition clearRateLimit (rl : gmap string RateEntry.t) (ip : string) : gmap string RateEntry.t :=
  delete ip rl.

(* ------------------------------------------------------------------ *)
(** ** OAuth endpoints *)

(** Query of [GET /oauth/authorize]. *)
Record authorize_query := mkAuthorizeQuery {
  q_redirect_uri : option string;
  q_state : option string;
  q_client_id : option string;
  q_code_challenge : option string;
  q_code_challenge_method : option string }.

(** [res.redirect(`${redirect_uri}?code=${code}&state=${state}`)]. *)
Definition code_redirect (redirect_uri : option string) (code : string) (state : option string) : response :=
  Redirect (js_str redirect_uri ++ "?code=" ++ code ++ "&state=" ++ js_str state).

(** [app.get('/oauth/authorize')]. *)
Definition authorize_get (st : server) (now : Z) (q : authorize_query) : server * response :=
  if negb (js_truthy authPassword) then
    let (code, st1) := randomUUID st in
    let entry := AuthCode.mk (q_client_id q) (q_redirect_uri q) None None (now + 60000) in
    (set_authCodes st1 (<[code := entry]> st1.(authCodes)),
     code_redirect (q_redirect_uri q) code (q_state q))
  else (st, LoginPage 200 None).

(** [app.post('/oauth/authorize')]: the form body is the query fields
    plus [password]; [clientIp] is the caller's address. *)
Definition authorize_post (st : server) (now : Z) (body : authorize_query)
    (password : option string) (clientIp : string) : server * response :=
  let (rateLimitError, rl1) := checkRateLimit st.(rateLimitState) now clientIp in
  let st1 := set_rateLimitState st rl1 in
  match rateLimitError with
  | Some msg => (st1, LoginPage 429 (Some msg))
  | None =>
      match fst (safeComparePasswords password authPassword) with
      | None => (st1, InternalError500)
      | Some false =>
          let (_, rl2) := recordFailedAttempt st1.(rateLimitState) now clientIp in
          (set_rateLimitState st1 rl2, LoginPage 401 (Some "Invalid password"))
      | Some true =>
          let st2 := set_rateLimitState st1 (clearRateLimit st1.(rateLimitState) clientIp) in
          let (code, st3) := randomUUID st2 in
          let entry := AuthCode.mk (q_client_id body) (q_redirect_uri body)
                         (q_code_challenge body) (q_code_challenge_method body) (now + 60000) in
          (set_authCodes st3 (<[code := entry]> st3.(authCodes)),
           code_redirect (q_redirect_uri body) code (q_state body))
      end
  end.

(** Body of [POST /oauth/token]. *)
Record token_request := mkTokenRequest {
  t_code : option string;
  t_grant_type : option string;
  t_client_id : option string;
  t_client_secret : option string }.

(** Property key used by [obj[k]] for a possibly undefined [k]. *)
Definition js_key (o : option string) : string := js_str o.

Definition token_response (st : server) : server * response :=
  let (tok, st1) := randomUUID st in
  (st1, TokenJson 200 tok "Bearer" OAUTH_TOKEN_EXPIRES_IN).

(** [app.post('/oauth/token')]. *)
Definition oauth_token (st : server) (now : Z) (req : token_request) : server * response :=
  if bool_decide (t_grant_type req = Some "client_credentials") then
    let st1 :=
      if js_truthy (t_client_id req)
         && negb (lookup_truthy (obj_get st.(oauthClients) (js_key (t_client_id req)))) then
        let cid := js_key (t_client_id req) in
        set_oauthClients st
          (<[cid := OAuthClient.mk cid (t_client_secret req) [] (Some "Auto-registered Client") now]>
             st.(oauthClients))
      else st in
    token_response st1
  else if bool_decide (t_grant_type req = Some "authorization_code") then
    let code := js_key (t_code req) in
    match obj_get st.(authCodes) code with
    | Own authCode =>
        if AuthCode.expires authCode <? now then
          (set_authCodes st (delete code st.(authCodes)),
           ErrorJson 400 "invalid_grant" "Invalid or expired authorization code")
        else token_response (set_authCodes st (delete code st.(authCodes)))
    | Inherited _ =>
        (* an inherited member is truthy and its [.expires] is [undefined];
           [undefined < Date.now()] is false *)
        token_response (set_authCodes st (delete code st.(authCodes)))
    | Undef =>
        (set_authCodes st (delete code st.(authCodes)),
         ErrorJson 400 "invalid_grant" "Invalid or expired authorization code")
    end
  else
    (st, ErrorJson 400 "unsupported_grant_type"
           "Supported grant types: authorization_code, client_credentials").

End Server.

(* ------------------------------------------------------------------ *)
(** ** MCP session handling *)

Section Mcp.

(** The request body and the transport behaviour come from the MCP SDK:
    [isInitializeRequest] is its predicate on bodies;
    [transport_initializes b] says whether a new transport, handling the
    initialize request [b], confirms the initialization by calling
    [onsessioninitialized] with the id drawn from [sessionIdGenerator];
    [close_ok t] says whether [transport.close()] of transport [t]
    resolves (then the [onclose] callback has run) or rejects. *)
Variable Body : Type.
Variable isInitializeRequest : Body -> bool.
Variable transport_initializes : Body -> bool.
Variable close_ok : nat -> bool.

(** [mcpPostHandler]; [sessionId] is the [mcp-session-id] header. *)
Definition mcp_internal_error : response :=
  JsonRpcError 500 (-32603) "Internal server error".

Definition mcpPostHandler (st : server) (sessionId : option string) (body : Body)
  : server * response :=
  let existing :=
    if js_truthy sessionId then obj_get st.(transports) (js_key sessionId) else Undef in
  match existing with
  | Own transport => (st, Handled transport)
  | Inherited _ =>
      (* [transport.handleRequest] is not a function: the [catch] answers 500 *)
      (st, mcp_internal_error)
  | Undef =>
      if negb (js_truthy sessionId) && isInitializeRequest body then
        let (transport, st1) := new_transport st in
        if transport_initializes body then
          let (sid, st2) := randomUUID st1 in
          (set_transports st2 (<[sid := transport]> st2.(transports)), Handled transport)
        else (st1, Handled transport)
      else (st, JsonRpcError 400 (-32000) "Bad Request: No valid session ID")
  end.

(** The loop of [shutdown]: [for (const sessionId in transports)] visits
    the keys present when the loop starts, skipping a key deleted in the
    meantime.  A successful [close()] fires [onclose], which deletes the
    entry, and the loop deletes it again; a rejected [close()] is logged
    and the loop goes on. *)
Fixpoint shutdown_loop (keys : list string) (tr : gmap string nat) (log : list string)
  : gmap string nat * list string :=
  match keys with
  | [] => (tr, log)
  | sessionId :: keys' =>
      match tr !! sessionId with
      | None => shutdown_loop keys' tr log
      | Some transport =>
          if close_ok transport then
            let tr1 := delete sessionId tr in
            shutdown_loop keys' (delete sessionId tr1) log
          else
            shutdown_loop keys' tr (log ++ [String.append "Error closing session " (String.append sessionId ":")])
      end
  end.

(** [shutdown] up to closing the database pool and the HTTP server. *)
Definition shutdown (st : server) : server * list string :=
  let (tr, log) := shutdown_loop ((map_to_list st.(transports)).*1) st.(transports) [] in
  (set_transports st tr, log).

End Mcp.

(* ------------------------------------------------------------------ *)
(** ** Traces of rate-limit events *)

(** The calls that read or write [rateLimitState]: a bare check, a bare
    failure record, and a whole [POST /oauth/authorize] submission. *)
Inductive rl_event :=
  | EvCheck (ip : string)
  | EvFail (ip : string)
  | EvSubmit (ip : string) (body : authorize_query) (password : option string).

Definition rl_step (MAX W : Z) (pw : option string) (st : server) (ev : Z * rl_event) : server :=
  let (now, e) := ev in
  match e with
  | EvCheck ip => set_rateLimitState st (snd (checkRateLimit MAX st.(rateLimitState) now ip))
  | EvFail ip => set_rateLimitState st (snd (recordFailedAttempt MAX W st.(rateLimitState) now ip))
  | EvSubmit ip body password => fst (authorize_post MAX W pw st now body password ip)
  end.

Definition run_events (MAX W : Z) (pw : option string) (evs : list (Z * rl_event)) (st : server)
  : server :=
  fold_left (rl_step MAX W pw) evs st.

(** [recordFailedAttempt(ip)] called at each of the times [ts], in order. *)
Definition record_failures (MAX W : Z) (rl : gmap string RateEntry.t) (ip : string) (ts : list Z)
  : gmap string RateEntry.t :=
  fold_left (fun rl now => snd (recordFailedAttempt MAX W rl now ip)) ts rl.

(** Attempt counts are never negative in a reachable table. *)
Definition rl_wf (rl : gmap string RateEntry.t) : Prop :=
  forall k e, rl !! k = Some e -> 0 <= RateEntry.attempts e.

Definition attempts_of (rl : gmap string RateEntry.t) (ip : string) : Z :=
  match rl !! ip with Some e => RateEntry.attempts e | None => 0 end.

(** [ip] is locked at least until [L], with a count at the threshold. *)
Definition locked_until (MAX : Z) (rl : gmap string RateEntry.t) (ip : string) (L : Z) : Prop :=
  exists e, rl !! ip = Some e /\ L <= RateEntry.lockoutUntil e /\ MAX <= RateEntry.attempts e.

(* ------------------------------------------------------------------ *)
(** ** Auxiliary definitions for the statements *)

Definition invalid_grant : response :=
  ErrorJson 400 "invalid_grant" "Invalid or expired authorization code".

Definition is_token_response (r : response) : bool :=
  match r with TokenJson 200 _ _ _ => true | _ => false end.

Definition sample_query : authorize_query :=
  mkAuthorizeQuery (Some "https://cb") (Some "s1") (Some "client-1")
                   (Some "E9Melhoa2OwvFrEMTJguCHaoeK1t8URWbuGJSstw-cM") (Some "S256").

Definition no_valid_session : response :=
  JsonRpcError 400 (-32000) "Bad Request: No valid session ID".

(** Every registered session id was drawn from [randomUUID]. *)
Definition ids_drawn (st : server) : Prop :=
  forall k, is_Some (st.(transports) !! k) -> exists n, (n < st.(uuid_counter))%N /\ k = pretty n.

Definition close_fails (close_ok : nat -> bool) (tr : gmap string nat) (k : string) : bool :=
  match tr !! k with Some t => negb (close_ok t) | None => false end.

Definition sample_ip : string := "10.0.0.1".

(* ------------------------------------------------------------------ *)
(** ** Client registration, [GET]/[DELETE /mcp] and the close callback *)

(** Body of [POST /oauth/register]: [redirect_uris] is [None] when the
    field is absent or not an array. *)
Record registration_request := mkRegistrationRequest {
  r_redirect_uris : option (list string);
  r_client_name : option string }.

Inductive registration_response :=
  | RegCreated (status : Z) (client_id : string) (client_id_issued_at : Z)
      (redirect_uris : list string) (client_name : string) (token_endpoint_auth_method : string)
  | RegError (status : Z) (error error_description : string).

(** [handleClientRegistration]; [Math.floor(created_at / 1000)] is
    [now / 1000] (floor division). *)
Definition handleClientRegistration (st : server) (now : Z) (req : registration_request)
  : server * registration_response :=
  match r_redirect_uris req with
  | Some ((_ :: _) as redirect_uris) =>
      let (client_id, st1) := randomUUID st in
      let client_name := if js_truthy (r_client_name req) then js_str (r_client_name req)
                         else "Unknown Client" in
      let client := OAuthClient.mk client_id None redirect_uris (Some client_name) now in
      (set_oauthClients st1 (<[client_id := client]> st1.(oauthClients)),
       RegCreated 201 client_id (now / 1000) redirect_uris client_name "none")
  | _ => (st, RegError 400 "invalid_client_metadata" "redirect_uris is required")
  end.

(** [mcpGetHandler]: the transport's [handleRequest] writes the answer. *)
Definition mcpGetHandler (st : server) (sessionId : option string) : response :=
  if negb (js_truthy sessionId) then TextBody 400 "Invalid or missing session ID"
  else match obj_get st.(transports) (js_key sessionId) with
       | Own transport => Handled transport
       | Inherited _ => HandlerRejected  (* [transport.handleRequest] is not a function *)
       | Undef => TextBody 400 "Invalid or missing session ID"
       end.

(** [mcpDeleteHandler]: same guard; the transport then terminates the
    session, which fires [transport_onclose]. *)
Definition mcpDeleteHandler (st : server) (sessionId : option string) : response :=
  if negb (js_truthy sessionId) then TextBody 400 "Invalid or missing session ID"
  else match obj_get st.(transports) (js_key sessionId) with
       | Own transport => Handled transport
       | Inherited _ => HandlerRejected  (* [transport.handleRequest] is not a function *)
       | Undef => TextBody 400 "Invalid or missing session ID"
       end.

(** [transport.onclose] of a transport whose [sessionId] is [sid]. *)
Definition transport_onclose (st : server) (sid : option string) : server :=
  if js_truthy sid && lookup_truthy (obj_get st.(transports) (js_key sid)) then
    set_transports st (delete (js_key sid) st.(transports))
  else st.

(** Route registration for [/mcp]: with OAuth on ([authMiddleware] not
    null), [authMiddleware] runs before each handler and a rejection ends
    the request; otherwise the handlers are registered alone. *)
Definition mcp_post_route (Body : Type) (isInitializeRequest transport_initializes : Body -> bool)
    (useOAuth : bool) (authHeader : option string) (st : server) (sessionId : option string)
    (body : Body) : server * response :=
  if useOAuth then
    match createAuthMiddleware authHeader with
    | MwReject status err desc => (st, ErrorJson status err desc)
    | MwNext _ => mcpPostHandler Body isInitializeRequest transport_initializes st sessionId body
    end
  else mcpPostHandler Body isInitializeRequest transport_initializes st sessionId body.

Definition mcp_get_route (useOAuth : bool) (authHeader : option string) (st : server)
    (sessionId : option string) : response :=
  if useOAuth then
    match createAuthMiddleware authHeader with
    | MwReject status err desc => ErrorJson status err desc
    | MwNext _ => mcpGetHandler st sessionId
    end
  else mcpGetHandler st sessionId.

Definition mcp_delete_route (useOAuth : bool) (authHeader : option string) (st : server)
    (sessionId : option string) : response :=
  if useOAuth then
    match createAuthMiddleware authHeader with
    | MwReject status err desc => ErrorJson status err desc
    | MwNext _ => mcpDeleteHandler st sessionId
    end
  else mcpDeleteHandler st sessionId.

(* ================================================================== *)
(** * Properties *)

(* ------------------------------------------------------------------ *)
(** ** Helper lemmas *)

Lemma js_truthy_true (o : option string) :
  js_truthy o = true <-> exists s, o = Some s /\ s <> "".
Proof.
  destruct o as [s|]; simpl.
  - rewrite negb_true_iff, String.eqb_neq. split.
    + intros H. eauto.
    + intros (s' & [= <-] & H). exact H.
  - split; [discriminate | intros (? & ? & _); discriminate].
Qed.

Lemma diff_acc_true (a b : list byte) : diff_acc a b true = true.
Proof.
  revert b. induction a as [|x a IH]; intros [|y b]; simpl; auto.
Qed.

Lemma diff_acc_false_iff (a b : list byte) :
  length a = length b -> (diff_acc a b false = false <-> a = b).
Proof.
  revert b. induction a as [|x a IH]; intros [|y b] Hlen; simpl in *;
    try discriminate; try tauto.
  destruct (Byte.eqb x y) eqn:Exy; simpl.
  - apply byte_dec_bl in Exy. subst y. rewrite IH by lia.
    split; [intros ->; reflexivity | intros [= ->]; reflexivity].
  - rewrite diff_acc_true. split; [discriminate|].
    intros [= -> ->]. rewrite byte_dec_lb in Exy by reflexivity. discriminate.
Qed.

Lemma timingSafeEqual_same_length (a b : list byte) :
  length a = length b -> timingSafeEqual a b = Some (bool_decide (a = b)).
Proof.
  intros Hlen. unfold timingSafeEqual. rewrite (proj2 (Nat.eqb_eq _ _) Hlen).
  f_equal. destruct (diff_acc a b false) eqn:E; case_bool_decide as Hab; simpl; auto.
  - apply (diff_acc_false_iff a b Hlen) in Hab. congruence.
  - apply (diff_acc_false_iff a b Hlen) in E. contradiction.
Qed.

Lemma skipn_repeat_byte (k n : nat) (x : byte) :
  skipn k (repeat x n) = repeat x (n - k).
Proof.
  revert n. induction k as [|k IH]; intros [|n]; simpl; auto.
Qed.

Lemma Buffer_copy_alloc (src : list byte) (n : nat) :
  Buffer_copy src (Buffer_alloc n) = firstn n src ++ repeat x00 (n - length src).
Proof.
  unfold Buffer_copy, Buffer_alloc. rewrite repeat_length, skipn_repeat_byte.
  reflexivity.
Qed.

Lemma length_Buffer_copy (src dst : list byte) :
  length (Buffer_copy src dst) = length dst.
Proof.
  unfold Buffer_copy. rewrite length_app, length_firstn, length_skipn. lia.
Qed.

(* ------------------------------------------------------------------ *)
(** ** C3: [safeComparePasswords] *)

(** C3. [safeComparePasswords provided expected] returns [true] exactly
    when both values are present, non-empty and have the same bytes; it
    never throws; when either is empty or undefined it returns [false]
    without calling [timingSafeEqual]; when the byte lengths differ it
    makes exactly one [timingSafeEqual] call, on the provided bytes
    truncated or zero-padded to the expected length against the
    expected bytes (two buffers of equal length), and returns [false]. *)
Theorem safeComparePasswords_spec (provided expected : option string) :
  (fst (safeComparePasswords provided expected) = Some true <->
     exists p e, provided = Some p /\ expected = Some e /\ p <> "" /\ e <> "" /\
                 Buffer_from p = Buffer_from e)
  /\ fst (safeComparePasswords provided expected) <> None
  /\ (js_truthy provided = false \/ js_truthy expected = false ->
      safeComparePasswords provided expected = (Some false, []))
  /\ (forall p e, provided = Some p -> expected = Some e -> p <> "" -> e <> "" ->
      length (Buffer_from p) <> length (Buffer_from e) ->
      let padded := firstn (length (Buffer_from e)) (Buffer_from p)
                    ++ repeat x00 (length (Buffer_from e) - length (Buffer_from p)) in
      safeComparePasswords provided expected = (Some false, [(padded, Buffer_from e)])
      /\ length padded = length (Buffer_from e)).
Proof.
  unfold safeComparePasswords.
  destruct (js_truthy provided) eqn:Hp; destruct (js_truthy expected) eqn:He; simpl.
  2-4: split; [split; [discriminate|] | split; [discriminate | split; [reflexivity|]]];
       [ intros (p & e & -> & -> & Hp' & He' & _);
         simpl in *; rewrite negb_false_iff, String.eqb_eq in *; intuition
       | intros p e -> -> Hp' He' _; simpl in *;
         rewrite negb_false_iff, String.eqb_eq in *; intuition ].
  apply js_truthy_true in Hp as (p & -> & Hp).
  apply js_truthy_true in He as (e & -> & He). simpl.
  destruct (Nat.eqb (length (Buffer_from p)) (length (Buffer_from e))) eqn:Hlen; simpl.
  - apply Nat.eqb_eq in Hlen. rewrite (timingSafeEqual_same_length _ _ Hlen). simpl.
    split; [|split; [discriminate|split]].
    + split.
      * intros [= Hb]. apply bool_decide_eq_true in Hb. eauto 10.
      * intros (p' & e' & [= <-] & [= <-] & _ & _ & Hb).
        rewrite bool_decide_eq_true_2 by exact Hb. reflexivity.
    + intros [H|H]; discriminate.
    + intros p' e' [= <-] [= <-] _ _ Hne. contradiction.
  - apply Nat.eqb_neq in Hlen.
    assert (Hcl : length (Buffer_copy (Buffer_from p) (Buffer_alloc (length (Buffer_from e))))
                  = length (Buffer_from e))
      by (rewrite length_Buffer_copy; apply repeat_length).
    rewrite (timingSafeEqual_same_length _ _ Hcl). simpl.
    split; [|split; [discriminate|split]].
    + split; [discriminate|].
      intros (p' & e' & [= <-] & [= <-] & _ & _ & Hb). rewrite Hb in Hlen. contradiction.
    + intros [H|H]; discriminate.
    + intros p' e' [= <-] [= <-] _ _ _. simpl.
      rewrite <- Buffer_copy_alloc. split; [reflexivity | exact Hcl].
Qed.

Lemma substring_0_length (s : string) : String.substring 0 (String.length s) s = s.
Proof. induction s as [|c s IH]; simpl; [reflexivity | now rewrite IH]. Qed.

Lemma prefix_append (p s : string) : String.prefix p (String.append p s) = true.
Proof.
  induction p as [|c p IH]; simpl; [destruct s; reflexivity|].
  destruct (Ascii.ascii_dec c c); [exact IH | contradiction].
Qed.

Lemma length_append_str (p s : string) :
  String.length (String.append p s) = (String.length p + String.length s)%nat.
Proof. induction p as [|c p IH]; simpl; auto. Qed.

Lemma substring_after_prefix (p s : string) :
  String.substring (String.length p) (String.length s) (String.append p s) = s.
Proof. induction p as [|c p IH]; simpl; [apply substring_0_length | exact IH]. Qed.

(* ------------------------------------------------------------------ *)
(** ** C8: [createAuthMiddleware] *)







(* ------------------------------------------------------------------ *)
(** ** Token endpoint *)

Lemma randomUUID_fresh (st : server) (n : N) :
  (n < st.(uuid_counter))%N -> pretty n <> fst (randomUUID st).
Proof.
  intros Hn Heq. simpl in Heq. apply (inj pretty) in Heq. lia.
Qed.

Lemma pretty_N_go_digits (x : N) (s : string) :
  all_digits s = true -> all_digits (pretty_N_go x s) = true.
Proof.
  revert s. induction (N.lt_wf_0 x) as [x _ IH]; intros s Hs.
  destruct (decide (x = 0%N)) as [->|Hx]; [rewrite pretty_N_go_0; exact Hs|].
  rewrite pretty_N_go_step by lia. apply IH; [apply N.div_lt; lia|].
  simpl. rewrite Hs, andb_true_r. unfold pretty_N_char. repeat case_match; reflexivity.
Qed.

Lemma pretty_all_digits (n : N) : all_digits (pretty n) = true.
Proof.
  unfold pretty, pretty_N. case_decide; [reflexivity|]. apply pretty_N_go_digits. reflexivity.
Qed.

(** No identifier drawn by [randomUUID] is the name of an
    [Object.prototype] member. *)
Lemma pretty_not_proto_member (n : N) : is_proto_member (pretty n) = false.
Proof.
  destruct (is_proto_member (pretty n)) eqn:E; [exfalso|reflexivity].
  unfold is_proto_member in E. apply existsb_exists in E as (m & Hm & Heq).
  apply String.eqb_eq in Heq. pose proof (pretty_all_digits n) as Hd. rewrite Heq in Hd.
  simpl in Hm. repeat destruct Hm as [<- | Hm]; try (vm_compute in Hd; discriminate Hd).
  contradiction.
Qed.

(** C10. [client_credentials] without a [client_id]: 200 with a token
    never drawn before, type [Bearer] and the configured lifetime; the
    client registry is unchanged. *)
Theorem client_credentials_without_client_id
    (EXP : Z) (st : server) (now : Z) (code secret : option string) :
  let (st', r) := oauth_token EXP st now
                    (mkTokenRequest code (Some "client_credentials") None secret) in
  (exists tok, r = TokenJson 200 tok "Bearer" EXP
               /\ forall n, (n < st.(uuid_counter))%N -> pretty n <> tok)
  /\ st'.(oauthClients) = st.(oauthClients).
Proof.
  simpl. split; [|reflexivity].
  eexists. split; [reflexivity|]. intros n Hn. exact (randomUUID_fresh st n Hn).
Qed.

Lemma grant_ac_not_cc :
  bool_decide (Some "authorization_code" = Some "client_credentials") = false.
Proof. apply bool_decide_eq_false_2. discriminate. Qed.

Lemma grant_ac_is_ac :
  bool_decide (Some "authorization_code" = Some "authorization_code") = true.
Proof. apply bool_decide_eq_true_2. reflexivity. Qed.


Lemma obj_get_own {A : Type} (m : gmap string A) (k : string) (v : A) :
  m !! k = Some v -> obj_get m k = Own v.
Proof. intros H. unfold obj_get. rewrite H. reflexivity. Qed.

Lemma obj_get_undef {A : Type} (m : gmap string A) (k : string) :
  m !! k = None -> is_proto_member k = false -> obj_get m k = Undef.
Proof. intros H Hp. unfold obj_get. rewrite H, Hp. reflexivity. Qed.

Lemma obj_get_truthy {A : Type} (m : gmap string A) (k : string) :
  lookup_truthy (obj_get m k) = bool_decide (is_Some (m !! k)) || is_proto_member k.
Proof.
  unfold obj_get. destruct (m !! k) eqn:E.
  - rewrite bool_decide_eq_true_2 by (eexists; reflexivity). reflexivity.
  - rewrite bool_decide_eq_false_2 by (intros [? ?]; discriminate).
    destruct (is_proto_member k); reflexivity.
Qed.

(** The [authorization_code] grant, unfolded. *)
Lemma oauth_token_authorization_code (EXP : Z) (st : server) (now : Z) (c : string)
    (cid sec : option string) :
  oauth_token EXP st now (mkTokenRequest (Some c) (Some "authorization_code") cid sec)
  = match obj_get st.(authCodes) c with
    | Own authCode =>
        if AuthCode.expires authCode <? now then
          (set_authCodes st (delete c st.(authCodes)), invalid_grant)
        else token_response EXP (set_authCodes st (delete c st.(authCodes)))
    | Inherited _ => token_response EXP (set_authCodes st (delete c st.(authCodes)))
    | Undef => (set_authCodes st (delete c st.(authCodes)), invalid_grant)
    end.
Proof.
  unfold oauth_token. cbn [t_grant_type t_code t_client_id t_client_secret].
  rewrite grant_ac_not_cc, grant_ac_is_ac. reflexivity.
Qed.



(* ------------------------------------------------------------------ *)
(** ** C5: auto-registration on [client_credentials] *)



(* ------------------------------------------------------------------ *)
(** ** C1 and C4: exchanging an authorization code *)

(** The GET authorize step with no password configured, unfolded. *)
Lemma authorize_get_auto (st : server) (now : Z) (q : authorize_query) :
  authorize_get None st now q
  = (set_authCodes (snd (randomUUID st))
       (<[fst (randomUUID st) := AuthCode.mk (q_client_id q) (q_redirect_uri q) None None (now + 60000)]>
          st.(authCodes)),
     code_redirect (q_redirect_uri q) (fst (randomUUID st)) (q_state q)).
Proof. reflexivity. Qed.

(** C1 (counterexample). A code issued by the authorize step at time 0
    and exchanged twice at 61000 ms, after its expiry: neither exchange
    succeeds, both answer [invalid_grant]. *)
Lemma expired_code_neither_exchange_succeeds :
  let st1 := fst (authorize_get None empty_server 0 sample_query) in
  let code := fst (randomUUID empty_server) in
  let req := mkTokenRequest (Some code) (Some "authorization_code") (Some "client-1") None in
  let (st2, r1) := oauth_token 604800 st1 61000 req in
  let (_, r2) := oauth_token 604800 st2 61000 req in
  is_Some (st1.(authCodes) !! code) /\ r1 = invalid_grant /\ r2 = invalid_grant.
Proof. vm_compute. split; [eexists; reflexivity | split; reflexivity]. Qed.

(** C1 (amended). Two sequential [authorization_code] exchanges of a
    stored code [c]: the second always fails with [invalid_grant] (the
    entry is deleted by the first call whatever its outcome), and the
    first succeeds exactly when it is made before the code expires.  So
    at most one succeeds, and exactly one when the first call is in time.
    The code is not the name of an [Object.prototype] member, as no code
    drawn from [randomUUID] is ([pretty_not_proto_member]); once deleted,
    such a name would find the inherited member. *)
Theorem authorization_code_single_use (EXP : Z) (st : server) (c : string)
    (ac : AuthCode.t) (now1 now2 : Z) (cid1 sec1 cid2 sec2 : option string) :
  st.(authCodes) !! c = Some ac -> is_proto_member c = false ->
  let (st1, r1) := oauth_token EXP st now1
                     (mkTokenRequest (Some c) (Some "authorization_code") cid1 sec1) in
  let (_, r2) := oauth_token EXP st1 now2
                   (mkTokenRequest (Some c) (Some "authorization_code") cid2 sec2) in
  (is_token_response r1 = true <-> now1 <= AuthCode.expires ac)
  /\ r2 = invalid_grant.
Proof.
  intros Hc Hp. rewrite oauth_token_authorization_code, (obj_get_own _ _ _ Hc).
  destruct (AuthCode.expires ac <? now1) eqn:E.
  - apply Z.ltb_lt in E. cbn -[oauth_token obj_get].
    rewrite oauth_token_authorization_code. cbn -[obj_get].
    rewrite (obj_get_undef _ _ (lookup_delete_eq _ _) Hp).
    split; [split; [discriminate | lia] | reflexivity].
  - apply Z.ltb_ge in E. cbn -[oauth_token obj_get].
    rewrite oauth_token_authorization_code. cbn -[obj_get].
    rewrite (obj_get_undef _ _ (lookup_delete_eq _ _) Hp).
    split; [split; [intros _; exact E | reflexivity] | reflexivity].
Qed.

(** C4 (the divergence at the boundary). A code issued at time [T] with
    no password configured is still exchanged successfully at exactly
    [T + 60000]: the check is [expires < Date.now()], not [<=]. *)
Theorem code_accepted_at_expiry_instant (EXP : Z) (st : server) (T : Z)
    (q : authorize_query) (cid sec : option string) :
  let code := fst (randomUUID st) in
  let st1 := fst (authorize_get None st T q) in
  is_token_response
    (snd (oauth_token EXP st1 (T + 60000)
            (mkTokenRequest (Some code) (Some "authorization_code") cid sec))) = true.
Proof.
  cbn zeta. rewrite authorize_get_auto. simpl fst.
  rewrite oauth_token_authorization_code. cbn -[obj_get].
  rewrite (obj_get_own _ _ _ (lookup_insert_eq _ _ _)). simpl.
  rewrite Z.ltb_irrefl. reflexivity.
Qed.

(* ------------------------------------------------------------------ *)
(** ** C6: PKCE fields recorded on the authorization code *)

(** C6 (the divergence). With no password configured, the code issued by
    [GET /oauth/authorize] is stored without the [code_challenge] and
    [code_challenge_method] of the request, whatever they are. *)
Theorem authorize_get_drops_pkce (st : server) (now : Z) (q : authorize_query) :
  (fst (authorize_get None st now q)).(authCodes) !! fst (randomUUID st)
  = Some (AuthCode.mk (q_client_id q) (q_redirect_uri q) None None (now + 60000)).
Proof. rewrite authorize_get_auto. simpl. apply lookup_insert_eq. Qed.

(* ------------------------------------------------------------------ *)
(** ** C2: lockout after the threshold *)

Section RateLimit.

Variables (MAX W : Z) (pw : option string).

Lemma recordFailedAttempt_lookup_ne (rl : gmap string RateEntry.t) (now : Z) (ip ip' : string) :
  ip' <> ip -> snd (recordFailedAttempt MAX W rl now ip') !! ip = rl !! ip.
Proof. intros Hne. unfold recordFailedAttempt. simpl. apply lookup_insert_ne. exact Hne. Qed.

Lemma recordFailedAttempt_attempts (rl : gmap string RateEntry.t) (now : Z) (ip : string) :
  attempts_of (snd (recordFailedAttempt MAX W rl now ip)) ip = attempts_of rl ip + 1.
Proof.
  unfold attempts_of, recordFailedAttempt. simpl. rewrite lookup_insert_eq.
  destruct (rl !! ip) as [e|]; simpl; destruct (MAX <=? _); reflexivity.
Qed.

Lemma recordFailedAttempt_wf (rl : gmap string RateEntry.t) (now : Z) (ip : string) :
  rl_wf rl -> rl_wf (snd (recordFailedAttempt MAX W rl now ip)).
Proof.
  intros Hwf k e. unfold recordFailedAttempt. simpl.
  destruct (decide (k = ip)) as [->|Hne].
  - rewrite lookup_insert_eq. intros [= <-].
    destruct (rl !! ip) as [e0|] eqn:E; simpl;
      [pose proof (Hwf _ _ E)|]; destruct (MAX <=? _); simpl; lia.
  - rewrite lookup_insert_ne by congruence. apply Hwf.
Qed.

Lemma record_failures_attempts (ts : list Z) (rl : gmap string RateEntry.t) (ip : string) :
  rl_wf rl ->
  rl_wf (record_failures MAX W rl ip ts)
  /\ attempts_of (record_failures MAX W rl ip ts) ip = attempts_of rl ip + Z.of_nat (length ts).
Proof.
  unfold record_failures.
  revert rl. induction ts as [|t ts IH]; intros rl Hwf; cbn [fold_left length].
  - split; [exact Hwf | lia].
  - destruct (IH _ (recordFailedAttempt_wf rl t ip Hwf)) as [Hwf' Ha].
    split; [exact Hwf'|].
    rewrite Ha, recordFailedAttempt_attempts. lia.
Qed.

Lemma attempts_of_nonneg (rl : gmap string RateEntry.t) (ip : string) :
  rl_wf rl -> 0 <= attempts_of rl ip.
Proof.
  intros Hwf. unfold attempts_of. destruct (rl !! ip) as [e|] eqn:E; [exact (Hwf _ _ E) | lia].
Qed.

(** After [N] failures (the last at [tN]) the caller is locked until
    [tN + W]. *)
Lemma record_failures_locked (rl : gmap string RateEntry.t) (ip : string) (ts : list Z) (tN : Z) :
  0 < MAX -> rl_wf rl -> (length ts + 1)%nat = Z.to_nat MAX ->
  locked_until MAX (record_failures MAX W rl ip (ts ++ [tN])) ip (tN + W).
Proof.
  intros HM Hwf Hlen. unfold record_failures. rewrite fold_left_app. simpl.
  destruct (record_failures_attempts ts rl ip Hwf) as [Hwf1 Ha1].
  unfold record_failures in Hwf1, Ha1.
  set (rl1 := fold_left _ ts rl) in *.
  pose proof (attempts_of_nonneg rl ip Hwf) as H0.
  assert (Hge : MAX <= attempts_of rl1 ip + 1) by lia.
  unfold locked_until, recordFailedAttempt. simpl. rewrite lookup_insert_eq.
  eexists. split; [reflexivity|].
  unfold attempts_of in Hge. destruct (rl1 !! ip) as [e|]; simpl in *;
    rewrite (proj2 (Z.leb_le _ _) Hge); simpl; lia.
Qed.

Lemma checkRateLimit_locked (rl : gmap string RateEntry.t) (ip : string) (L t : Z) :
  locked_until MAX rl ip L -> t < L ->
  exists msg, checkRateLimit MAX rl t ip = (Some msg, rl).
Proof.
  intros (e & He & HL & _) Ht. unfold checkRateLimit. rewrite He.
  rewrite (proj2 (Z.ltb_lt t (RateEntry.lockoutUntil e)) ltac:(lia)). eexists. reflexivity.
Qed.

Lemma checkRateLimit_lookup_ne (rl : gmap string RateEntry.t) (t : Z) (ip ip' : string) :
  ip' <> ip -> snd (checkRateLimit MAX rl t ip') !! ip = rl !! ip.
Proof.
  intros Hne. unfold checkRateLimit.
  destruct (rl !! ip'); [|reflexivity].
  destruct (t <? _); [reflexivity|]. destruct (_ && _); simpl; [|reflexivity].
  apply lookup_delete_ne. exact Hne.
Qed.

Lemma set_rateLimitState_same (st : server) : set_rateLimitState st st.(rateLimitState) = st.
Proof. destruct st; reflexivity. Qed.

(** A submission from another caller leaves [ip]'s entry alone. *)
Lemma authorize_post_lookup_ne (st : server) (t : Z) (body : authorize_query)
    (password : option string) (ip ip' : string) :
  ip' <> ip ->
  (fst (authorize_post MAX W pw st t body password ip')).(rateLimitState) !! ip
  = st.(rateLimitState) !! ip.
Proof.
  intros Hne. unfold authorize_post.
  pose proof (checkRateLimit_lookup_ne st.(rateLimitState) t ip ip' Hne) as Hc.
  destruct (checkRateLimit MAX st.(rateLimitState) t ip') as [[msg|] rl1] eqn:E;
    cbn -[recordFailedAttempt safeComparePasswords] in Hc |- *; [exact Hc|].
  destruct (fst (safeComparePasswords password pw)) as [[|]|].
  - cbn. unfold clearRateLimit. rewrite lookup_delete_ne by exact Hne. exact Hc.
  - pose proof (recordFailedAttempt_lookup_ne rl1 t ip ip' Hne) as H2.
    destruct (recordFailedAttempt MAX W rl1 t ip') as [b rl2]. cbn in H2 |- *.
    rewrite H2. exact Hc.
  - exact Hc.
Qed.

(** A locked submission answers 429 and changes nothing. *)
Lemma authorize_post_locked (st : server) (t L : Z) (body : authorize_query)
    (password : option string) (ip : string) :
  locked_until MAX st.(rateLimitState) ip L -> t < L ->
  exists msg, authorize_post MAX W pw st t body password ip = (st, LoginPage 429 (Some msg)).
Proof.
  intros Hl Ht. destruct (checkRateLimit_locked _ _ _ _ Hl Ht) as [msg Hc].
  exists msg. unfold authorize_post. rewrite Hc. simpl.
  rewrite set_rateLimitState_same. reflexivity.
Qed.

Lemma locked_until_lookup (rl rl' : gmap string RateEntry.t) (ip : string) (L : Z) :
  rl' !! ip = rl !! ip -> locked_until MAX rl ip L -> locked_until MAX rl' ip L.
Proof. intros Heq (e & He & H). exists e. rewrite Heq. auto. Qed.

(** One event within the window keeps [ip] locked until [tN + W]. *)
Lemma rl_step_locked (st : server) (ip : string) (tN : Z) (ev : Z * rl_event) :
  tN <= fst ev < tN + W ->
  locked_until MAX st.(rateLimitState) ip (tN + W) ->
  locked_until MAX (rl_step MAX W pw st ev).(rateLimitState) ip (tN + W).
Proof.
  destruct ev as [t [ip'|ip'|ip' body password]]; simpl; intros Ht Hl.
  - destruct (decide (ip' = ip)) as [->|Hne].
    + destruct (checkRateLimit_locked _ _ _ _ Hl (proj2 Ht)) as [msg ->]. exact Hl.
    + eapply locked_until_lookup; [|exact Hl]. apply checkRateLimit_lookup_ne, Hne.
  - destruct (decide (ip' = ip)) as [->|Hne].
    + destruct Hl as (e & He & HL & HA).
      unfold locked_until, recordFailedAttempt. simpl. rewrite lookup_insert_eq, He. simpl.
      rewrite (proj2 (Z.leb_le MAX (RateEntry.attempts e + 1)) ltac:(lia)).
      eexists. split; [reflexivity|]. simpl. lia.
    + eapply locked_until_lookup; [|exact Hl]. apply recordFailedAttempt_lookup_ne, Hne.
  - destruct (decide (ip' = ip)) as [->|Hne].
    + destruct (authorize_post_locked st t _ body password ip Hl (proj2 Ht)) as [msg ->].
      exact Hl.
    + eapply locked_until_lookup; [|exact Hl]. apply authorize_post_lookup_ne, Hne.
Qed.

Lemma run_events_locked (evs : list (Z * rl_event)) (st : server) (ip : string) (tN : Z) :
  Forall (fun ev => tN <= fst ev < tN + W) evs ->
  locked_until MAX st.(rateLimitState) ip (tN + W) ->
  locked_until MAX (run_events MAX W pw evs st).(rateLimitState) ip (tN + W).
Proof.
  revert st. induction evs as [|ev evs IH]; intros st Hall Hl; simpl; [exact Hl|].
  inversion Hall as [|? ? Hev Hrest]; subst.
  apply (IH _ Hrest). apply rl_step_locked; assumption.
Qed.

End RateLimit.

(** C2. Let [MAX > 0] be the threshold and [W] the window.  From any
    reachable table, after [MAX] consecutive [recordFailedAttempt] calls
    for [ip], the last at [tN], then any sequence of checks, failure
    records and password submissions (from any callers, any passwords)
    at times in [[tN, tN + W)], every further [checkRateLimit] of [ip]
    before [tN + W] returns a message, and every [POST /oauth/authorize]
    from [ip] before [tN + W] answers 429 whatever the password, without
    changing the state (the check comes before the comparison). *)
Theorem rate_limit_lockout (MAX W : Z) (pw : option string) (st : server) (ip : string)
    (ts : list Z) (tN : Z) (evs : list (Z * rl_event)) (t : Z)
    (body : authorize_query) (password : option string) :
  0 < MAX ->
  rl_wf st.(rateLimitState) ->
  (length ts + 1)%nat = Z.to_nat MAX ->
  Forall (fun ev => tN <= fst ev < tN + W) evs ->
  t < tN + W ->
  let st1 := set_rateLimitState st (record_failures MAX W st.(rateLimitState) ip (ts ++ [tN])) in
  let st2 := run_events MAX W pw evs st1 in
  is_Some (fst (checkRateLimit MAX st2.(rateLimitState) t ip))
  /\ exists msg, authorize_post MAX W pw st2 t body password ip = (st2, LoginPage 429 (Some msg)).
Proof.
  intros HM Hwf Hlen Hevs Ht st1 st2.
  assert (Hl1 : locked_until MAX st1.(rateLimitState) ip (tN + W))
    by (apply record_failures_locked; assumption).
  assert (Hl2 : locked_until MAX st2.(rateLimitState) ip (tN + W))
    by (apply run_events_locked; assumption).
  split.
  - destruct (checkRateLimit_locked MAX _ _ _ _ Hl2 Ht) as [msg ->]. eexists. reflexivity.
  - exact (authorize_post_locked MAX W pw st2 t (tN + W) body password ip Hl2 Ht).
Qed.

(* ------------------------------------------------------------------ *)
(** ** C7: dispatch of [POST /mcp] *)



(* ------------------------------------------------------------------ *)
(** ** C9: shutdown *)

Lemma shutdown_loop_spec (close_ok : nat -> bool) (keys : list string) :
  NoDup keys ->
  forall (tr : gmap string nat) (log : list string),
  let (tr', log') := shutdown_loop close_ok keys tr log in
  (forall k, tr' !! k = match tr !! k with
                        | Some t => if bool_decide (k ∈ keys) && close_ok t then None else Some t
                        | None => None
                        end)
  /\ length log' = (length log + length (List.filter (close_fails close_ok tr) keys))%nat.
Proof.
  induction 1 as [|sid keys Hnin Hnd IH]; intros tr log; simpl.
  - split; [|lia]. intros k. destruct (tr !! k); [|reflexivity].
    repeat case_bool_decide; simpl; first [reflexivity | set_solver].
  - assert (Hfilt : forall tr1 : gmap string nat, (forall k, k <> sid -> tr1 !! k = tr !! k) ->
              List.filter (close_fails close_ok tr1) keys = List.filter (close_fails close_ok tr) keys).
    { intros tr1 Heq. apply filter_ext_in. intros k Hk. unfold close_fails.
      rewrite Heq; [reflexivity|]. intros ->. apply Hnin. apply list_elem_of_In. exact Hk. }
    unfold close_fails at 1. destruct (tr !! sid) as [t|] eqn:Esid.
    + destruct (close_ok t) eqn:Eok.
      * specialize (IH (delete sid (delete sid tr)) log).
        destruct (shutdown_loop close_ok keys _ log) as [tr' log'].
        destruct IH as [IHk IHl]. simpl. split.
        -- intros k. rewrite IHk. destruct (decide (k = sid)) as [->|Hne].
           ++ rewrite !lookup_delete_eq, Esid, bool_decide_eq_true_2, Eok by set_solver.
              reflexivity.
           ++ rewrite !lookup_delete_ne by congruence. destruct (tr !! k); [|reflexivity].
              repeat case_bool_decide; set_solver.
        -- rewrite IHl, Hfilt; [reflexivity|]. intros k Hne.
           rewrite !lookup_delete_ne by congruence. reflexivity.
      * specialize (IH tr (log ++ [String.append "Error closing session " (String.append sid ":")])).
        destruct (shutdown_loop close_ok keys tr _) as [tr' log'].
        destruct IH as [IHk IHl]. simpl. split.
        -- intros k. rewrite IHk. destruct (decide (k = sid)) as [->|Hne].
           ++ rewrite Esid, Eok, !andb_false_r. reflexivity.
           ++ destruct (tr !! k); [|reflexivity]. repeat case_bool_decide; set_solver.
        -- rewrite IHl, length_app. simpl. lia.
    + specialize (IH tr log).
      destruct (shutdown_loop close_ok keys tr log) as [tr' log'].
      destruct IH as [IHk IHl]. split; [|exact IHl].
      intros k. rewrite IHk. destruct (decide (k = sid)) as [->|Hne].
      * rewrite Esid. reflexivity.
      * destruct (tr !! k); [|reflexivity]. repeat case_bool_decide; set_solver.
Qed.

(** C9 (counterexample).  One registered session whose [close()]
    rejects: the failure is logged, and the entry is still registered
    after the loop; the registry is not cleared. *)
Lemma shutdown_keeps_failed_session :
  let st := set_transports empty_server {["s1" := 0%nat]} in
  (fst (shutdown (fun _ => false) st)).(transports) !! "s1" = Some 0%nat
  /\ length (snd (shutdown (fun _ => false) st)) = 1%nat.
Proof. split; reflexivity. Qed.

(** C9 (amended).  [shutdown] tries to close every registered transport;
    a rejected close is logged (one line per failed session) and the loop
    goes on with the others.  Afterwards an entry is still registered
    exactly when its close failed, so the registry is empty exactly when
    every close succeeded; the other stores are untouched. *)
Theorem shutdown_best_effort (close_ok : nat -> bool) (st : server) :
  let (st', log) := shutdown close_ok st in
  (forall k, st'.(transports) !! k
             = match st.(transports) !! k with
               | Some t => if close_ok t then None else Some t
               | None => None
               end)
  /\ length log = length (List.filter (close_fails close_ok st.(transports))
                                      ((map_to_list st.(transports)).*1))
  /\ (st'.(transports) = ∅ <-> forall k t, st.(transports) !! k = Some t -> close_ok t = true)
  /\ st'.(rateLimitState) = st.(rateLimitState)
  /\ st'.(oauthClients) = st.(oauthClients)
  /\ st'.(authCodes) = st.(authCodes).
Proof.
  unfold shutdown.
  pose proof (shutdown_loop_spec close_ok _ (NoDup_fst_map_to_list st.(transports))
                st.(transports) []) as Hspec.
  destruct (shutdown_loop close_ok _ st.(transports) []) as [tr' log'].
  destruct Hspec as [Hk Hl].
  assert (Hk' : forall k, tr' !! k = match st.(transports) !! k with
                                     | Some t => if close_ok t then None else Some t
                                     | None => None
                                     end).
  { intros k. rewrite Hk. destruct (st.(transports) !! k) as [t|] eqn:E; [|reflexivity].
    rewrite bool_decide_eq_true_2; [reflexivity|].
    apply (list_elem_of_fmap_2' fst _ (k, t)); [|reflexivity].
    apply elem_of_map_to_list. exact E. }
  simpl. split; [exact Hk'|]. split; [exact Hl|]. split; [|split; [reflexivity | split; reflexivity]].
  rewrite map_empty. split.
  - intros Hnone k t Ht. specialize (Hnone k). rewrite Hk', Ht in Hnone.
    destruct (close_ok t); [reflexivity | discriminate].
  - intros Hall k. rewrite Hk'. destruct (st.(transports) !! k) as [t|] eqn:E; [|reflexivity].
    rewrite (Hall k t E). reflexivity.
Qed.

(* ------------------------------------------------------------------ *)
(** ** Witnesses: the hypotheses of the theorems hold on concrete inputs *)


Lemma authorization_code_single_use_witness :
  let EXP := 604800 in
  let st := fst (authorize_get None empty_server 0 sample_query) in
  let c := pretty 0%N in
  let ac := AuthCode.mk (Some "client-1") (Some "https://cb") None None 60000 in
  (st.(authCodes) !! c = Some ac /\ is_proto_member c = false)
  /\ (let (st1, r1) := oauth_token EXP st 1000
                         (mkTokenRequest (Some c) (Some "authorization_code") (Some "client-1") None) in
      let (_, r2) := oauth_token EXP st1 2000
                       (mkTokenRequest (Some c) (Some "authorization_code") (Some "client-1") None) in
      (is_token_response r1 = true <-> 1000 <= AuthCode.expires ac)
      /\ r2 = invalid_grant).
Proof.
  cbv zeta. split; [split; vm_compute; reflexivity|].
  apply (authorization_code_single_use 604800 (fst (authorize_get None empty_server 0 sample_query))
           (pretty 0%N) (AuthCode.mk (Some "client-1") (Some "https://cb") None None 60000)
           1000 2000 (Some "client-1") None (Some "client-1") None);
    vm_compute; reflexivity.
Defined.

Lemma rate_limit_lockout_witness :
  let evs := [(10, EvSubmit sample_ip sample_query (Some "wrong"));
              (20, EvSubmit "10.0.0.2" sample_query (Some "secret"))] in
  (0 < 5 /\ rl_wf empty_server.(rateLimitState)
   /\ (length [0; 1; 2; 3] + 1)%nat = Z.to_nat 5
   /\ Forall (fun ev => 4 <= fst ev < 4 + 900000) evs /\ 100 < 4 + 900000)
  /\ (let st1 := set_rateLimitState empty_server
                   (record_failures 5 900000 empty_server.(rateLimitState) sample_ip [0; 1; 2; 3; 4]) in
      let st2 := run_events 5 900000 (Some "secret") evs st1 in
      is_Some (fst (checkRateLimit 5 st2.(rateLimitState) 100 sample_ip))
      /\ exists msg, authorize_post 5 900000 (Some "secret") st2 100 sample_query (Some "secret") sample_ip
                     = (st2, LoginPage 429 (Some msg))).
Proof.
  cbv zeta.
  assert (Hwf : rl_wf empty_server.(rateLimitState)).
  { intros k e He. simpl in He. rewrite lookup_empty in He. discriminate. }
  assert (Hevs : Forall (fun ev : Z * rl_event => 4 <= fst ev < 4 + 900000)
                   [(10, EvSubmit sample_ip sample_query (Some "wrong"));
                    (20, EvSubmit "10.0.0.2" sample_query (Some "secret"))]).
  { repeat constructor; simpl; lia. }
  split; [split; [lia | split; [exact Hwf | split; [reflexivity | split; [exact Hevs | lia]]]]|].
  exact (rate_limit_lockout 5 900000 (Some "secret") empty_server sample_ip [0; 1; 2; 3] 4 _ 100
           sample_query (Some "secret") ltac:(lia) Hwf eq_refl Hevs ltac:(lia)).
Defined.


(* ------------------------------------------------------------------ *)
(** ** Small executable checks *)

Example mw_missing : createAuthMiddleware None = MwReject 401 "unauthorized" "Bearer token required".
Proof. reflexivity. Qed.
Example mw_empty : createAuthMiddleware (Some (node_header_value "Bearer ")) = MwReject 401 "unauthorized" "Bearer token required".
Proof. reflexivity. Qed.
Example mw_ok : createAuthMiddleware (Some "Bearer abcdefghij") = MwNext "abcdefgh...".
Proof. reflexivity. Qed.
Example cmp_pad : safeComparePasswords (Some "ab") (Some "abc") = (Some false, [([x61; x62; x00], [x61; x62; x63])]).
Proof. reflexivity. Qed.


(* ================================================================== *)
(** * Further properties of the server code *)

(* ------------------------------------------------------------------ *)
(** ** Client registration *)

(** A registration without a non-empty [redirect_uris] array is answered
    400 [invalid_client_metadata] and changes nothing. *)
Theorem registration_rejects_missing_redirect_uris (st : server) (now : Z)
    (uris : option (list string)) (name : option string) :
  uris = None \/ uris = Some [] ->
  handleClientRegistration st now (mkRegistrationRequest uris name)
  = (st, RegError 400 "invalid_client_metadata" "redirect_uris is required").
Proof. intros [-> | ->]; reflexivity. Qed.

Lemma registration_rejects_missing_redirect_uris_witness :
  (@None (list string) = None \/ @None (list string) = Some [])
  /\ handleClientRegistration empty_server 0 (mkRegistrationRequest None (Some "app"))
     = (empty_server, RegError 400 "invalid_client_metadata" "redirect_uris is required").
Proof.
  split; [left; reflexivity|].
  apply (registration_rejects_missing_redirect_uris empty_server 0 None (Some "app")). left. reflexivity.
Defined.

(** A registration with a non-empty [redirect_uris] list answers 201 and
    adds exactly one client, with no secret, the given URIs, the name sent
    (or [Unknown Client] when it is absent or empty) and the current
    time; [client_id_issued_at] is that time in whole seconds, and the
    other stores are untouched. *)
Theorem registration_creates_client (st : server) (now : Z) (uris : list string)
    (name : option string) :
  uris <> [] ->
  let (st', r) := handleClientRegistration st now (mkRegistrationRequest (Some uris) name) in
  let cid := fst (randomUUID st) in
  let cname := match name with
               | Some n => if String.eqb n "" then "Unknown Client" else n
               | None => "Unknown Client"
               end in
  (exists issued_at, r = RegCreated 201 cid issued_at uris cname "none"
                     /\ issued_at * 1000 <= now < issued_at * 1000 + 1000)
  /\ st'.(oauthClients) = <[cid := OAuthClient.mk cid None uris (Some cname) now]> st.(oauthClients)
  /\ st'.(rateLimitState) = st.(rateLimitState)
  /\ st'.(authCodes) = st.(authCodes)
  /\ st'.(transports) = st.(transports).
Proof.
  intros Hne. destruct uris as [|u us]; [contradiction|].
  assert (Hname : (if js_truthy name then js_str name else "Unknown Client")
                  = match name with
                    | Some n => if String.eqb n "" then "Unknown Client" else n
                    | None => "Unknown Client"
                    end).
  { destruct name as [n|]; simpl; [destruct (String.eqb n ""); reflexivity | reflexivity]. }
  simpl. rewrite Hname.
  split; [|repeat split].
  eexists. split; [reflexivity|].
  pose proof (Z.mul_div_le now 1000 ltac:(lia)). pose proof (Z.mod_pos_bound now 1000 ltac:(lia)).
  pose proof (Z.div_mod now 1000 ltac:(lia)). lia.
Qed.

Lemma registration_creates_client_witness :
  ["https://cb"] <> []
  /\ (let (st', r) := handleClientRegistration empty_server 1700000000123
                        (mkRegistrationRequest (Some ["https://cb"]) None) in
      let cid := fst (randomUUID empty_server) in
      let cname := match @None string with
                   | Some n => if String.eqb n "" then "Unknown Client" else n
                   | None => "Unknown Client"
                   end in
      (exists issued_at, r = RegCreated 201 cid issued_at ["https://cb"] cname "none"
                         /\ issued_at * 1000 <= 1700000000123 < issued_at * 1000 + 1000)
      /\ st'.(oauthClients)
         = <[cid := OAuthClient.mk cid None ["https://cb"] (Some cname) 1700000000123]>
             empty_server.(oauthClients)
      /\ st'.(rateLimitState) = empty_server.(rateLimitState)
      /\ st'.(authCodes) = empty_server.(authCodes)
      /\ st'.(transports) = empty_server.(transports)).
Proof.
  split; [discriminate|].
  apply (registration_creates_client empty_server 1700000000123 ["https://cb"] None). discriminate.
Defined.

(* ------------------------------------------------------------------ *)
(** ** [GET] and [DELETE /mcp], session close *)

Lemma mcpDeleteHandler_guard (st : server) (sessionId : option string) :
  mcpDeleteHandler st sessionId = mcpGetHandler st sessionId.
Proof. reflexivity. Qed.

(** [GET /mcp] and [DELETE /mcp] reach a transport exactly when the
    header names a registered session (non-empty).  A missing or empty
    header, or an unregistered id, is answered 400 [Invalid or missing
    session ID], except an unregistered id naming an [Object.prototype]
    member (such as [constructor]): it passes the guard, and the call of
    the missing [handleRequest] rejects the handler's promise. *)
Theorem mcp_get_delete_routing (st : server) (sessionId : option string) :
  (forall t, mcpGetHandler st sessionId = Handled t <->
             exists s, sessionId = Some s /\ s <> "" /\ st.(transports) !! s = Some t)
  /\ (forall t, mcpDeleteHandler st sessionId = Handled t <->
                exists s, sessionId = Some s /\ s <> "" /\ st.(transports) !! s = Some t)
  /\ (js_truthy sessionId = false
      \/ (exists s, sessionId = Some s /\ st.(transports) !! s = None /\ is_proto_member s = false) ->
      mcpGetHandler st sessionId = TextBody 400 "Invalid or missing session ID"
      /\ mcpDeleteHandler st sessionId = TextBody 400 "Invalid or missing session ID")
  /\ (forall s, sessionId = Some s -> st.(transports) !! s = None -> is_proto_member s = true ->
      mcpGetHandler st sessionId = HandlerRejected /\ mcpDeleteHandler st sessionId = HandlerRejected).
Proof.
  rewrite (mcpDeleteHandler_guard st sessionId).
  assert (Hhandled : forall t, mcpGetHandler st sessionId = Handled t <->
            exists s, sessionId = Some s /\ s <> "" /\ st.(transports) !! s = Some t).
  { intros t. unfold mcpGetHandler. split.
    - destruct (js_truthy sessionId) eqn:Hs; simpl; [|discriminate].
      apply js_truthy_true in Hs as (s & -> & Hs). simpl js_key. unfold obj_get.
      destruct (st.(transports) !! s) eqn:E; [intros [= <-]; eauto|].
      destruct (is_proto_member s); discriminate.
    - intros (s & -> & Hs & Ht).
      rewrite (proj2 (js_truthy_true (Some s))) by eauto. simpl js_key.
      rewrite (obj_get_own _ _ _ Ht). reflexivity. }
  split; [exact Hhandled|split; [exact Hhandled|split]].
  - intros [Hs | (s & -> & Hn & Hp)]; unfold mcpGetHandler.
    + rewrite Hs. auto.
    + destruct (js_truthy (Some s)); simpl; [|auto].
      rewrite (obj_get_undef _ _ Hn Hp). auto.
  - intros s -> Hn Hp. unfold mcpGetHandler. simpl js_key.
    destruct (js_truthy (Some s)) eqn:Hs.
    + simpl. unfold obj_get. rewrite Hn, Hp. auto.
    + simpl in Hs. apply negb_false_iff, String.eqb_eq in Hs. subst s. vm_compute in Hp. discriminate.
Qed.

(** After [onclose] of a session, its entry is gone, the other sessions
    are untouched, and [GET], [DELETE] and [POST /mcp] with its id are all
    answered 400 (a closed session cannot be resumed).  The id is not the
    name of an [Object.prototype] member, as no id drawn from
    [randomUUID] is ([pretty_not_proto_member]). *)
Theorem onclose_then_session_rejected (Body : Type) (isInitializeRequest transport_initializes : Body -> bool)
    (st : server) (s : string) :
  s <> "" -> is_proto_member s = false ->
  let st' := transport_onclose st (Some s) in
  st'.(transports) !! s = None
  /\ (forall k, k <> s -> st'.(transports) !! k = st.(transports) !! k)
  /\ mcpGetHandler st' (Some s) = TextBody 400 "Invalid or missing session ID"
  /\ mcpDeleteHandler st' (Some s) = TextBody 400 "Invalid or missing session ID"
  /\ (forall body, mcpPostHandler Body isInitializeRequest transport_initializes st' (Some s) body
                   = (st', no_valid_session)).
Proof.
  intros Hs Hp.
  assert (Ht : js_truthy (Some s) = true) by (apply js_truthy_true; eauto).
  assert (Hc : lookup_truthy (obj_get st.(transports) s) = bool_decide (is_Some (st.(transports) !! s)))
    by (rewrite obj_get_truthy, Hp, orb_false_r; reflexivity).
  assert (Hgone : (transport_onclose st (Some s)).(transports) !! s = None).
  { unfold transport_onclose. rewrite Ht. simpl js_key. rewrite Hc.
    case_bool_decide as Hin; simpl.
    - apply lookup_delete_eq.
    - destruct (st.(transports) !! s) eqn:E; [exfalso; apply Hin; eexists; reflexivity|reflexivity]. }
  cbv zeta. split; [exact Hgone|split; [|split; [|split]]].
  - intros k Hk. unfold transport_onclose. rewrite Ht. simpl js_key. rewrite Hc.
    case_bool_decide; simpl; [apply lookup_delete_ne; congruence|reflexivity].
  - unfold mcpGetHandler. rewrite Ht. simpl js_key. rewrite (obj_get_undef _ _ Hgone Hp). reflexivity.
  - unfold mcpDeleteHandler. rewrite Ht. simpl js_key. rewrite (obj_get_undef _ _ Hgone Hp). reflexivity.
  - intros body. unfold mcpPostHandler. rewrite Ht. simpl js_key.
    rewrite (obj_get_undef _ _ Hgone Hp). reflexivity.
Qed.

Lemma onclose_then_session_rejected_witness :
  ("1" <> "" /\ is_proto_member "1" = false)
  /\ (let st' := transport_onclose (set_transports empty_server {[ "1" := 0%nat ]}) (Some "1") in
      st'.(transports) !! "1" = None
      /\ (forall k, k <> "1" -> st'.(transports) !! k
                                = (set_transports empty_server {[ "1" := 0%nat ]}).(transports) !! k)
      /\ mcpGetHandler st' (Some "1") = TextBody 400 "Invalid or missing session ID"
      /\ mcpDeleteHandler st' (Some "1") = TextBody 400 "Invalid or missing session ID"
      /\ (forall body, mcpPostHandler unit (fun _ => true) (fun _ => true) st' (Some "1") body
                       = (st', no_valid_session))).
Proof.
  split; [split; [discriminate | reflexivity]|].
  apply (onclose_then_session_rejected unit (fun _ => true) (fun _ => true)
           (set_transports empty_server {[ "1" := 0%nat ]}) "1"); [discriminate | reflexivity].
Defined.

(* ------------------------------------------------------------------ *)
(** ** OAuth state and MCP sessions are kept apart *)

Ltac split_handler :=
  repeat (first [case_match | case_bool_decide]; simpl); split; try reflexivity; try lia.

Lemma oauth_token_sessions (EXP : Z) (st : server) (now : Z) (req : token_request) :
  (fst (oauth_token EXP st now req)).(transports) = st.(transports)
  /\ (st.(uuid_counter) <= (fst (oauth_token EXP st now req)).(uuid_counter))%N.
Proof. unfold oauth_token, token_response, randomUUID. simpl. split_handler. Qed.

Lemma authorize_get_sessions (pw : option string) (st : server) (now : Z) (q : authorize_query) :
  (fst (authorize_get pw st now q)).(transports) = st.(transports)
  /\ (st.(uuid_counter) <= (fst (authorize_get pw st now q)).(uuid_counter))%N.
Proof. unfold authorize_get, randomUUID. simpl. split_handler. Qed.

Lemma authorize_post_sessions (MAX W : Z) (pw : option string) (st : server) (now : Z)
    (body : authorize_query) (password : option string) (ip : string) :
  (fst (authorize_post MAX W pw st now body password ip)).(transports) = st.(transports)
  /\ (st.(uuid_counter) <= (fst (authorize_post MAX W pw st now body password ip)).(uuid_counter))%N.
Proof. unfold authorize_post, randomUUID. simpl. split_handler. Qed.

Lemma registration_sessions (st : server) (now : Z) (req : registration_request) :
  (fst (handleClientRegistration st now req)).(transports) = st.(transports)
  /\ (st.(uuid_counter) <= (fst (handleClientRegistration st now req)).(uuid_counter))%N.
Proof. unfold handleClientRegistration, randomUUID. simpl. split_handler. Qed.

Lemma shutdown_loop_sub (close_ok : nat -> bool) (keys : list string) :
  forall (tr : gmap string nat) (log : list string) (k : string),
  is_Some (fst (shutdown_loop close_ok keys tr log) !! k) -> is_Some (tr !! k).
Proof.
  induction keys as [|sid keys IH]; intros tr log k; simpl; [auto|].
  destruct (tr !! sid) as [t|] eqn:E; [|apply IH].
  destruct (close_ok t); intros H; apply IH in H; [|exact H].
  destruct (decide (k = sid)) as [->|Hne].
  - rewrite E. eexists; reflexivity.
  - rewrite !lookup_delete_ne in H by congruence. exact H.
Qed.

Lemma mcpPostHandler_oauth_state (Body : Type) (isInitializeRequest transport_initializes : Body -> bool)
    (st : server) (sessionId : option string) (body : Body) :
  let st' := fst (mcpPostHandler Body isInitializeRequest transport_initializes st sessionId body) in
  st'.(rateLimitState) = st.(rateLimitState) /\ st'.(oauthClients) = st.(oauthClients)
  /\ st'.(authCodes) = st.(authCodes)
  /\ (forall k, is_Some (st'.(transports) !! k) ->
        is_Some (st.(transports) !! k)
        \/ (k = pretty st.(uuid_counter) /\ (st.(uuid_counter) < st'.(uuid_counter))%N))
  /\ (st.(uuid_counter) <= st'.(uuid_counter))%N.
Proof.
  unfold mcpPostHandler, new_transport, randomUUID. simpl.
  repeat (case_match; simpl); (split; [reflexivity|split; [reflexivity|split; [reflexivity|split]]]);
    try lia; intros k Hk; auto.
  destruct (decide (k = pretty st.(uuid_counter))) as [->|Hne]; [right; split; [reflexivity|lia]|].
  left. rewrite lookup_insert_ne in Hk by congruence. exact Hk.
Qed.

(** The OAuth endpoints never touch the MCP session registry, and the
    MCP handlers ([POST /mcp], [onclose], [shutdown]) never touch the
    rate-limit table, the client registry or the authorization codes. *)
Theorem oauth_and_sessions_separate (MAX W EXP : Z) (pw : option string) (Body : Type)
    (isInitializeRequest transport_initializes : Body -> bool) (close_ok : nat -> bool)
    (st : server) :
  (forall now req, (fst (oauth_token EXP st now req)).(transports) = st.(transports))
  /\ (forall now q, (fst (authorize_get pw st now q)).(transports) = st.(transports))
  /\ (forall now body password ip,
        (fst (authorize_post MAX W pw st now body password ip)).(transports) = st.(transports))
  /\ (forall now req, (fst (handleClientRegistration st now req)).(transports) = st.(transports))
  /\ (forall st', (exists sid body,
                     st' = fst (mcpPostHandler Body isInitializeRequest transport_initializes st sid body))
                  \/ (exists sid, st' = transport_onclose st sid)
                  \/ st' = fst (shutdown close_ok st) ->
        st'.(rateLimitState) = st.(rateLimitState) /\ st'.(oauthClients) = st.(oauthClients)
        /\ st'.(authCodes) = st.(authCodes)).
Proof.
  split; [intros; apply oauth_token_sessions|].
  split; [intros; apply authorize_get_sessions|].
  split; [intros; apply authorize_post_sessions|].
  split; [intros; apply registration_sessions|].
  intros st' [(sid & body & ->) | [(sid & ->) | ->]].
  - pose proof (mcpPostHandler_oauth_state Body isInitializeRequest transport_initializes st sid body)
      as (H1 & H2 & H3 & _). auto.
  - unfold transport_onclose. case_match; auto.
  - unfold shutdown. case_match. auto.
Qed.

(** [ids_drawn] (every registered session id was drawn from
    [randomUUID]) holds in every state reachable by the handlers: each
    OAuth endpoint, [POST /mcp], [onclose] and [shutdown] keeps it. *)
Theorem ids_drawn_invariant (MAX W EXP : Z) (pw : option string) (Body : Type)
    (isInitializeRequest transport_initializes : Body -> bool) (close_ok : nat -> bool)
    (st : server) :
  ids_drawn st ->
  (forall now req, ids_drawn (fst (oauth_token EXP st now req)))
  /\ (forall now q, ids_drawn (fst (authorize_get pw st now q)))
  /\ (forall now body password ip, ids_drawn (fst (authorize_post MAX W pw st now body password ip)))
  /\ (forall now req, ids_drawn (fst (handleClientRegistration st now req)))
  /\ (forall sid body,
        ids_drawn (fst (mcpPostHandler Body isInitializeRequest transport_initializes st sid body)))
  /\ (forall sid, ids_drawn (transport_onclose st sid))
  /\ ids_drawn (fst (shutdown close_ok st)).
Proof.
  intros Hids.
  assert (Hmono : forall st', (forall k, is_Some (st'.(transports) !! k) -> is_Some (st.(transports) !! k)) ->
                  (st.(uuid_counter) <= st'.(uuid_counter))%N -> ids_drawn st').
  { intros st' Hsub Hle k Hk. destruct (Hids k (Hsub k Hk)) as (n & Hn & ->).
    exists n. split; [lia|reflexivity]. }
  assert (Heq : forall st', st'.(transports) = st.(transports) ->
                (st.(uuid_counter) <= st'.(uuid_counter))%N -> ids_drawn st').
  { intros st' Ht Hle. apply Hmono; [|exact Hle]. intros k. rewrite Ht. auto. }
  split; [intros; apply Heq; apply oauth_token_sessions|].
  split; [intros; apply Heq; apply authorize_get_sessions|].
  split; [intros; apply Heq; apply authorize_post_sessions|].
  split; [intros; apply Heq; apply registration_sessions|].
  split; [|split].
  - intros sid body.
    pose proof (mcpPostHandler_oauth_state Body isInitializeRequest transport_initializes st sid body)
      as (_ & _ & _ & Hsub & Hle).
    intros k Hk. destruct (Hsub k Hk) as [Hin | [-> Hlt]].
    + destruct (Hids k Hin) as (n & Hn & ->). exists n. split; [lia|reflexivity].
    + exists st.(uuid_counter). split; [exact Hlt|reflexivity].
  - intros sid. unfold transport_onclose. case_match; [|exact Hids].
    apply Hmono; [|simpl; lia]. intros k. simpl. destruct (decide (k = js_key sid)) as [->|Hne].
    + rewrite lookup_delete_eq. intros [? [=]].
    + rewrite lookup_delete_ne by congruence. auto.
  - unfold shutdown. case_match. apply Hmono; [|simpl; lia]. simpl.
    intros k Hk. eapply shutdown_loop_sub. rewrite H. exact Hk.
Qed.

Lemma ids_drawn_invariant_witness :
  ids_drawn empty_server
  /\ ids_drawn (fst (mcpPostHandler unit (fun _ => true) (fun _ => true) empty_server None tt)).
Proof.
  assert (H0 : ids_drawn empty_server).
  { intros k [x Hx]. simpl in Hx. rewrite lookup_empty in Hx. discriminate. }
  split; [exact H0|].
  apply (ids_drawn_invariant 5 900000 604800 None unit (fun _ => true) (fun _ => true) (fun _ => true)
           empty_server H0).
Defined.

(* ------------------------------------------------------------------ *)
(** ** Token endpoint *)

(** What [POST /oauth/token] never does: it leaves the rate-limit table
    alone, adds no authorization code and changes none (it can only
    remove the code presented in the request), and keeps every registered
    client record as it was (it may only add new ones). *)
Theorem oauth_token_never (EXP : Z) (st : server) (now : Z) (req : token_request) :
  let st' := fst (oauth_token EXP st now req) in
  st'.(rateLimitState) = st.(rateLimitState)
  /\ (forall k a, st'.(authCodes) !! k = Some a -> st.(authCodes) !! k = Some a)
  /\ (forall k, k <> js_key (t_code req) -> st'.(authCodes) !! k = st.(authCodes) !! k)
  /\ (forall k c, st.(oauthClients) !! k = Some c -> st'.(oauthClients) !! k = Some c).
Proof.
  cbv zeta. unfold oauth_token, token_response, randomUUID.
  case_bool_decide; [|case_bool_decide].
  - case_match eqn:E; simpl; (split; [reflexivity|split; [|split]]); auto.
    intros k c Hk. apply andb_prop in E as [_ E]. apply negb_true_iff in E.
    rewrite obj_get_truthy in E. apply orb_false_iff in E as [E _]. apply bool_decide_eq_false in E.
    rewrite lookup_insert_ne; [exact Hk|]. intros <-. apply E. rewrite Hk. eexists; reflexivity.
  - repeat (case_match; simpl); (split; [reflexivity|split; [|split]]); auto;
      try (intros k Hk; apply lookup_delete_ne; congruence);
      intros k a; (destruct (decide (k = js_key (t_code req))) as [->|Hne];
                   [rewrite lookup_delete_eq; discriminate | rewrite lookup_delete_ne by congruence; auto]).
  - simpl. split; [reflexivity|split; [|split]]; auto.
Qed.

(** A missing or unsupported [grant_type] is answered 400
    [unsupported_grant_type] and changes nothing. *)
Theorem oauth_token_unsupported_grant (EXP : Z) (st : server) (now : Z) (req : token_request) :
  t_grant_type req <> Some "client_credentials" ->
  t_grant_type req <> Some "authorization_code" ->
  oauth_token EXP st now req
  = (st, ErrorJson 400 "unsupported_grant_type"
           "Supported grant types: authorization_code, client_credentials").
Proof.
  intros H1 H2. unfold oauth_token.
  rewrite (bool_decide_eq_false_2 _ H1), (bool_decide_eq_false_2 _ H2). reflexivity.
Qed.

Lemma oauth_token_unsupported_grant_witness :
  (@None string <> Some "client_credentials" /\ @None string <> Some "authorization_code")
  /\ oauth_token 604800 empty_server 0 (mkTokenRequest (Some "c") None None None)
     = (empty_server, ErrorJson 400 "unsupported_grant_type"
                        "Supported grant types: authorization_code, client_credentials").
Proof.
  split; [split; discriminate|].
  apply (oauth_token_unsupported_grant 604800 empty_server 0 (mkTokenRequest (Some "c") None None None));
    simpl; discriminate.
Defined.

(** An [authorization_code] exchange with a code never issued (and not
    the name of an [Object.prototype] member) changes nothing; with an
    expired code it removes the code; both answer 400 [invalid_grant], and
    so does every later attempt with that code. *)
Theorem oauth_token_bad_code (EXP : Z) (st : server) (now : Z) (c : string)
    (cid sec : option string) :
  is_proto_member c = false ->
  (st.(authCodes) !! c = None
   \/ exists ac, st.(authCodes) !! c = Some ac /\ AuthCode.expires ac < now) ->
  let (st1, r1) := oauth_token EXP st now (mkTokenRequest (Some c) (Some "authorization_code") cid sec) in
  r1 = invalid_grant
  /\ (st.(authCodes) !! c = None -> st1 = st)
  /\ st1.(authCodes) = delete c st.(authCodes)
  /\ (forall now' cid' sec',
        snd (oauth_token EXP st1 now' (mkTokenRequest (Some c) (Some "authorization_code") cid' sec'))
        = invalid_grant).
Proof.
  intros Hp Hc.
  assert (Hretry : forall st1 : server, st1.(authCodes) = delete c st.(authCodes) ->
            forall now' cid' sec',
            snd (oauth_token EXP st1 now' (mkTokenRequest (Some c) (Some "authorization_code") cid' sec'))
            = invalid_grant).
  { intros st1 H1 now' cid' sec'. rewrite oauth_token_authorization_code, H1.
    rewrite (obj_get_undef _ _ (lookup_delete_eq _ _) Hp). reflexivity. }
  rewrite oauth_token_authorization_code.
  destruct Hc as [Hn | (ac & Hs & Hexp)].
  - rewrite (obj_get_undef _ _ Hn Hp). split; [reflexivity|split; [|split; [reflexivity|apply Hretry; reflexivity]]].
    intros _. rewrite delete_id by exact Hn. destruct st; reflexivity.
  - rewrite (obj_get_own _ _ _ Hs). apply Z.ltb_lt in Hexp. rewrite Hexp.
    split; [reflexivity|split; [congruence|split; [reflexivity|apply Hretry; reflexivity]]].
Qed.

Lemma oauth_token_bad_code_witness :
  is_proto_member "c" = false
  /\ (empty_server.(authCodes) !! "c" = None
   \/ exists ac, empty_server.(authCodes) !! "c" = Some ac /\ AuthCode.expires ac < 5)
  /\ snd (oauth_token 604800 empty_server 5 (mkTokenRequest (Some "c") (Some "authorization_code") None None))
     = invalid_grant.
Proof.
  assert (H : empty_server.(authCodes) !! "c" = None
              \/ exists ac, empty_server.(authCodes) !! "c" = Some ac /\ AuthCode.expires ac < 5)
    by (left; reflexivity).
  assert (Hp : is_proto_member "c" = false) by reflexivity.
  split; [exact Hp|split; [exact H|]].
  pose proof (oauth_token_bad_code 604800 empty_server 5 "c" None None Hp H) as Hb.
  destruct (oauth_token 604800 empty_server 5 _) as [st1 r1]. simpl. exact (proj1 Hb).
Defined.

(** An [authorization_code] exchange whose [code] is the name of an
    [Object.prototype] member (such as [constructor]) and not a stored
    code finds the inherited member, whose [.expires] is [undefined]; as
    [undefined < Date.now()] is false, the exchange returns a fresh token,
    without any code having been issued, and leaves the codes as they
    were, so it can be repeated. *)
Theorem oauth_token_proto_code (EXP : Z) (st : server) (now : Z) (c : string)
    (cid sec : option string) :
  is_proto_member c = true -> st.(authCodes) !! c = None ->
  let (st1, r1) := oauth_token EXP st now (mkTokenRequest (Some c) (Some "authorization_code") cid sec) in
  (exists tok, r1 = TokenJson 200 tok "Bearer" EXP
               /\ forall n, (n < st.(uuid_counter))%N -> pretty n <> tok)
  /\ st1.(authCodes) = st.(authCodes)
  /\ st1.(oauthClients) = st.(oauthClients).
Proof.
  intros Hp Hn. rewrite oauth_token_authorization_code.
  unfold obj_get. rewrite Hn, Hp. cbn -[pretty].
  split; [|split; [apply delete_id; exact Hn | reflexivity]].
  eexists. split; [reflexivity|]. intros n Hlt. exact (randomUUID_fresh st n Hlt).
Qed.

Lemma oauth_token_proto_code_witness :
  (is_proto_member "constructor" = true /\ empty_server.(authCodes) !! "constructor" = None)
  /\ is_token_response
       (snd (oauth_token 604800 empty_server 0
               (mkTokenRequest (Some "constructor") (Some "authorization_code") None None))) = true.
Proof.
  assert (H1 : is_proto_member "constructor" = true) by reflexivity.
  assert (H2 : empty_server.(authCodes) !! "constructor" = None) by reflexivity.
  split; [split; [exact H1 | exact H2]|].
  pose proof (oauth_token_proto_code 604800 empty_server 0 "constructor" None None H1 H2) as Hb.
  destruct (oauth_token 604800 empty_server 0 _) as [st1 r1].
  destruct Hb as ((tok & -> & _) & _). reflexivity.
Defined.

(* ------------------------------------------------------------------ *)
(** ** Rate limiter *)

(** When [ip] is locked out, the wait in the message is the remaining
    lockout rounded up to whole seconds, and the table is unchanged. *)
Theorem checkRateLimit_message (MAX : Z) (rl : gmap string RateEntry.t) (now : Z) (ip : string)
    (e : RateEntry.t) :
  rl !! ip = Some e -> now < RateEntry.lockoutUntil e ->
  exists n, checkRateLimit MAX rl now ip = (Some (rate_limit_message n), rl)
            /\ 1 <= n /\ (n - 1) * 1000 < RateEntry.lockoutUntil e - now <= n * 1000.
Proof.
  intros He Hl. unfold checkRateLimit. rewrite He.
  rewrite (proj2 (Z.ltb_lt now (RateEntry.lockoutUntil e)) Hl).
  eexists. split; [reflexivity|].
  set (d := RateEntry.lockoutUntil e - now).
  pose proof (Z.div_mod (d + 999) 1000 ltac:(lia)).
  pose proof (Z.mod_pos_bound (d + 999) 1000 ltac:(lia)). lia.
Qed.

Lemma checkRateLimit_message_witness :
  exists n, checkRateLimit 5 {[ "ip" := RateEntry.mk 5 10500 ]} 0 "ip"
            = (Some (rate_limit_message n), {[ "ip" := RateEntry.mk 5 10500 ]})
            /\ 1 <= n /\ (n - 1) * 1000 < 10500 - 0 <= n * 1000.
Proof.
  apply (checkRateLimit_message 5 {[ "ip" := RateEntry.mk 5 10500 ]} 0 "ip" (RateEntry.mk 5 10500));
    [reflexivity | simpl; lia].
Defined.

(** A wrong password from a caller that is not locked out is answered
    401 and counted: the count goes up by one from the stored one, or
    from zero when there is none or when it belongs to an expired lockout
    (which [checkRateLimit] forgets); a count below the threshold never
    expires.  Reaching the threshold sets the lockout to [now + W].
    Other callers' entries, the codes, clients and sessions are
    unchanged. *)
Theorem authorize_post_wrong_password (MAX W : Z) (pw : option string) (st : server) (now : Z)
    (body : authorize_query) (password : option string) (ip : string) :
  fst (safeComparePasswords password pw) = Some false ->
  (forall e, st.(rateLimitState) !! ip = Some e -> RateEntry.lockoutUntil e <= now) ->
  let prior := match st.(rateLimitState) !! ip with
               | Some e => if MAX <=? RateEntry.attempts e then RateEntry.mk 0 0 else e
               | None => RateEntry.mk 0 0
               end in
  let (st', r) := authorize_post MAX W pw st now body password ip in
  r = LoginPage 401 (Some "Invalid password")
  /\ st'.(rateLimitState) !! ip
     = Some (RateEntry.mk (RateEntry.attempts prior + 1)
               (if MAX <=? RateEntry.attempts prior + 1 then now + W
                else RateEntry.lockoutUntil prior))
  /\ (forall ip', ip' <> ip -> st'.(rateLimitState) !! ip' = st.(rateLimitState) !! ip')
  /\ st'.(authCodes) = st.(authCodes) /\ st'.(oauthClients) = st.(oauthClients)
  /\ st'.(transports) = st.(transports).
Proof.
  intros Hpw Hnl. cbv zeta.
  assert (Hchk : checkRateLimit MAX st.(rateLimitState) now ip
                 = (None, match st.(rateLimitState) !! ip with
                          | Some e => if MAX <=? RateEntry.attempts e then delete ip st.(rateLimitState)
                                      else st.(rateLimitState)
                          | None => st.(rateLimitState)
                          end)).
  { unfold checkRateLimit. destruct (st.(rateLimitState) !! ip) as [e|] eqn:E; [|reflexivity].
    specialize (Hnl e eq_refl).
    rewrite (proj2 (Z.ltb_ge now (RateEntry.lockoutUntil e)) Hnl).
    rewrite (proj2 (Z.leb_le (RateEntry.lockoutUntil e) now) Hnl). simpl.
    destruct (MAX <=? RateEntry.attempts e); reflexivity. }
  unfold authorize_post. rewrite Hchk. cbn -[recordFailedAttempt safeComparePasswords]. rewrite Hpw.
  unfold recordFailedAttempt. simpl.
  destruct (st.(rateLimitState) !! ip) as [e|] eqn:E.
  - destruct (MAX <=? RateEntry.attempts e) eqn:Ha.
    + rewrite lookup_delete_eq. simpl.
      split; [reflexivity|split; [|split; [|repeat split]]].
      * rewrite lookup_insert_eq. destruct (MAX <=? 0 + 1); reflexivity.
      * intros ip' Hne. rewrite lookup_insert_ne, lookup_delete_ne by congruence. reflexivity.
    + rewrite E. simpl.
      split; [reflexivity|split; [|split; [|repeat split]]].
      * rewrite lookup_insert_eq. destruct (MAX <=? RateEntry.attempts e + 1); reflexivity.
      * intros ip' Hne. rewrite lookup_insert_ne by congruence. reflexivity.
  - rewrite E. simpl.
    split; [reflexivity|split; [|split; [|repeat split]]].
    + rewrite lookup_insert_eq. destruct (MAX <=? 0 + 1); reflexivity.
    + intros ip' Hne. rewrite lookup_insert_ne by congruence. reflexivity.
Qed.

Lemma authorize_post_wrong_password_witness :
  fst (safeComparePasswords (Some "wrong") (Some "secret")) = Some false
  /\ (fst (authorize_post 5 900000 (Some "secret")
             (set_rateLimitState empty_server {[ "ip" := RateEntry.mk 5 100 ]})
             200 sample_query (Some "wrong") "ip")).(rateLimitState) !! "ip"
     = Some (RateEntry.mk 1 0).
Proof.
  assert (H1 : fst (safeComparePasswords (Some "wrong") (Some "secret")) = Some false) by reflexivity.
  assert (H2 : forall e, (set_rateLimitState empty_server {[ "ip" := RateEntry.mk 5 100 ]}).(rateLimitState)
                         !! "ip" = Some e -> RateEntry.lockoutUntil e <= 200).
  { intros e He. vm_compute in He. injection He as <-. simpl. lia. }
  split; [exact H1|].
  pose proof (authorize_post_wrong_password 5 900000 (Some "secret")
                (set_rateLimitState empty_server {[ "ip" := RateEntry.mk 5 100 ]})
                200 sample_query (Some "wrong") "ip" H1 H2) as Hb.
  cbv zeta in Hb.
  destruct (authorize_post 5 900000 (Some "secret") _ 200 sample_query (Some "wrong") "ip") as [st' r].
  simpl. destruct Hb as [_ [Hl _]]. rewrite Hl. vm_compute. reflexivity.
Defined.

Lemma checkRateLimit_unlocked (MAX : Z) (rl : gmap string RateEntry.t) (now : Z) (ip : string) :
  (forall e, rl !! ip = Some e -> RateEntry.lockoutUntil e <= now) ->
  exists rl', checkRateLimit MAX rl now ip = (None, rl')
              /\ forall ip', ip' <> ip -> rl' !! ip' = rl !! ip'.
Proof.
  intros Hnl. unfold checkRateLimit. destruct (rl !! ip) as [e|] eqn:E; [|eauto].
  specialize (Hnl e eq_refl).
  rewrite (proj2 (Z.ltb_ge now (RateEntry.lockoutUntil e)) Hnl).
  destruct ((RateEntry.lockoutUntil e <=? now) && (MAX <=? RateEntry.attempts e)); [|eauto].
  eexists. split; [reflexivity|]. intros ip' Hne. apply lookup_delete_ne. congruence.
Qed.

(* ------------------------------------------------------------------ *)
(** ** Login, then code exchange *)

(** The correct password from a caller that is not locked out clears its
    failure count, redirects with a code drawn by [randomUUID], and stores
    that code with the client, redirect URI and PKCE fields of the form
    and a 60 s lifetime; exchanging it at any time up to [now + 60000]
    gives a token, after which the code is spent. *)
Theorem login_then_exchange (MAX W EXP : Z) (pw : option string) (st : server) (now : Z)
    (body : authorize_query) (password : option string) (ip : string) :
  fst (safeComparePasswords password pw) = Some true ->
  (forall e, st.(rateLimitState) !! ip = Some e -> RateEntry.lockoutUntil e <= now) ->
  let code := pretty st.(uuid_counter) in
  let (st1, r) := authorize_post MAX W pw st now body password ip in
  r = code_redirect (q_redirect_uri body) code (q_state body)
  /\ st1.(rateLimitState) !! ip = None
  /\ (forall ip', ip' <> ip -> st1.(rateLimitState) !! ip' = st.(rateLimitState) !! ip')
  /\ st1.(authCodes) !! code
     = Some (AuthCode.mk (q_client_id body) (q_redirect_uri body)
               (q_code_challenge body) (q_code_challenge_method body) (now + 60000))
  /\ (forall t cid sec, t <= now + 60000 ->
        let (st2, r2) := oauth_token EXP st1 t (mkTokenRequest (Some code) (Some "authorization_code") cid sec) in
        is_token_response r2 = true
        /\ forall t' cid' sec',
             snd (oauth_token EXP st2 t' (mkTokenRequest (Some code) (Some "authorization_code") cid' sec'))
             = invalid_grant).
Proof.
  intros Hpw Hnl. cbv zeta.
  destruct (checkRateLimit_unlocked MAX _ now ip Hnl) as (rl' & Hc & Hne).
  unfold authorize_post. rewrite Hc. cbn -[safeComparePasswords oauth_token]. rewrite Hpw.
  cbn -[oauth_token].
  split; [reflexivity|split; [|split; [|split]]].
  - apply lookup_delete_eq.
  - intros ip' Hip. rewrite <- (Hne ip' Hip). apply lookup_delete_ne. congruence.
  - apply lookup_insert_eq.
  - intros t cid sec Ht. rewrite oauth_token_authorization_code. cbn -[oauth_token obj_get pretty].
    rewrite (obj_get_own _ _ _ (lookup_insert_eq _ _ _)). cbn -[oauth_token pretty].
    rewrite (proj2 (Z.ltb_ge (now + 60000) t) Ht). cbn -[oauth_token pretty].
    split; [reflexivity|]. intros t' cid' sec'.
    rewrite oauth_token_authorization_code. cbn -[obj_get pretty].
    rewrite (obj_get_undef _ _ (lookup_delete_eq _ _) (pretty_not_proto_member _)). reflexivity.
Qed.

Lemma login_then_exchange_witness :
  fst (safeComparePasswords (Some "secret") (Some "secret")) = Some true
  /\ is_token_response
       (snd (oauth_token 604800
               (fst (authorize_post 5 900000 (Some "secret") empty_server 0 sample_query (Some "secret") "ip"))
               30000 (mkTokenRequest (Some (pretty 0%N)) (Some "authorization_code") None None))) = true.
Proof.
  assert (H1 : fst (safeComparePasswords (Some "secret") (Some "secret")) = Some true) by reflexivity.
  assert (H2 : forall e, empty_server.(rateLimitState) !! "ip" = Some e -> RateEntry.lockoutUntil e <= 0).
  { intros e He. vm_compute in He. discriminate. }
  split; [exact H1|].
  pose proof (login_then_exchange 5 900000 604800 (Some "secret") empty_server 0 sample_query
                (Some "secret") "ip" H1 H2) as Hb.
  cbv zeta in Hb.
  destruct (authorize_post 5 900000 (Some "secret") empty_server 0 sample_query (Some "secret") "ip")
    as [st1 r].
  simpl. destruct Hb as (_ & _ & _ & _ & Hx).
  specialize (Hx 30000 None None ltac:(lia)).
  destruct (oauth_token 604800 st1 30000 _) as [st2 r2]. exact (proj1 Hx).
Defined.

(* ------------------------------------------------------------------ *)
(** ** Authentication in front of [/mcp] *)

Lemma createAuthMiddleware_bearer (tok : string) :
  tok <> "" ->
  createAuthMiddleware (Some (String.append "Bearer " tok))
  = MwNext (String.append (String.substring 0 8 tok) "...").
Proof.
  intros Htok. unfold createAuthMiddleware.
  rewrite prefix_append, length_append_str.
  replace (String.length "Bearer " + String.length tok - 7)%nat
    with (String.length tok) by (simpl; lia).
  pose proof (substring_after_prefix "Bearer " tok) as Hs.
  change (String.length "Bearer ") with 7%nat in Hs. rewrite Hs.
  destruct (String.eqb tok "") eqn:E; [apply String.eqb_eq in E; contradiction|].
  destruct (String.eqb (String.append "Bearer " tok) "") eqn:E2;
    [apply String.eqb_eq in E2; discriminate|].
  reflexivity.
Qed.

(** With OAuth on, a request the middleware rejects gets its 401 on all
    three [/mcp] routes and changes nothing (no session is created);
    a request with any non-empty bearer token is passed to the handler
    unchanged: the token is not checked against the tokens the token
    endpoint issued, which are stored nowhere. *)
Theorem mcp_routes_with_oauth (Body : Type) (isInitializeRequest transport_initializes : Body -> bool)
    (st : server) (sessionId : option string) (body : Body) :
  (forall authHeader status err desc,
     createAuthMiddleware authHeader = MwReject status err desc ->
     mcp_post_route Body isInitializeRequest transport_initializes true authHeader st sessionId body
     = (st, ErrorJson status err desc)
     /\ mcp_get_route true authHeader st sessionId = ErrorJson status err desc
     /\ mcp_delete_route true authHeader st sessionId = ErrorJson status err desc)
  /\ (forall tok, tok <> "" ->
      let h := Some (String.append "Bearer " tok) in
      mcp_post_route Body isInitializeRequest transport_initializes true h st sessionId body
      = mcpPostHandler Body isInitializeRequest transport_initializes st sessionId body
      /\ mcp_get_route true h st sessionId = mcpGetHandler st sessionId
      /\ mcp_delete_route true h st sessionId = mcpDeleteHandler st sessionId).
Proof.
  split.
  - intros h status err desc Hr. unfold mcp_post_route, mcp_get_route, mcp_delete_route.
    rewrite Hr. auto.
  - intros tok Htok. cbv zeta. unfold mcp_post_route, mcp_get_route, mcp_delete_route.
    rewrite (createAuthMiddleware_bearer tok Htok). auto.
Qed.
